(** * Auto MOC Linker: a shallow embedding of [src/main.js]

    JavaScript strings are modelled as Rocq [string]s whose characters are
    the UTF-16 code units 0..255 (an [ascii] is read as a Latin-1 code
    unit).  Character classes of the regular expressions of the source
    ([\s], [.], [trim()], [toLowerCase()]) are written out for that range. *)

From Stdlib Require Import String Ascii.
From stdpp Require Import base gmap strings list.

Open Scope string_scope.

(* ------------------------------------------------------------------ *)
(** ** Character classes and small string operations *)

Module Str.

Definition code (c : ascii) : nat := nat_of_ascii c.

(** [\s] and [String.prototype.trim]: tab, LF, VT, FF, CR, space and the
    no-break space U+00A0. *)
Definition is_ws (c : ascii) : bool :=
  let n := code c in
  (n =? 9)%nat || (n =? 10)%nat || (n =? 11)%nat || (n =? 12)%nat
  || (n =? 13)%nat || (n =? 32)%nat || (n =? 160)%nat.

(** Line terminators below U+0100: LF and CR ([.] does not match them,
    [$] and [^] in multiline mode stop at them). *)
Definition is_lt (c : ascii) : bool :=
  let n := code c in (n =? 10)%nat || (n =? 13)%nat.

Definition nl : string := String (ascii_of_nat 10) EmptyString.

(** [toLowerCase] on code units 0..255. *)
Definition lower (c : ascii) : ascii :=
  let n := code c in
  if ((65 <=? n)%nat && (n <=? 90)%nat)
     || ((192 <=? n)%nat && (n <=? 222)%nat && negb (n =? 215)%nat)
  then ascii_of_nat (n + 32) else c.

Fixpoint to_lower (s : string) : string :=
  match s with
  | EmptyString => EmptyString
  | String c r => String (lower c) (to_lower r)
  end.

Definition starts_with (p s : string) : bool := String.prefix p s.

Fixpoint rev_str (s : string) : string :=
  match s with
  | EmptyString => EmptyString
  | String c r => rev_str r ++ String c EmptyString
  end.

Definition ends_with (p s : string) : bool := starts_with (rev_str p) (rev_str s).

Fixpoint ltrim (s : string) : string :=
  match s with
  | String c r => if is_ws c then ltrim r else s
  | EmptyString => EmptyString
  end.

Definition trim (s : string) : string := rev_str (ltrim (rev_str (ltrim s))).

(** [s.substring(1)] *)
Definition drop1 (s : string) : string :=
  match s with EmptyString => EmptyString | String _ r => r end.

(** [s.split(c)] for a one-character separator. *)
Fixpoint split1 (sep : ascii) (s : string) : list string :=
  match s with
  | EmptyString => [EmptyString]
  | String c r =>
      let rest := split1 sep r in
      if Ascii.eqb c sep then EmptyString :: rest
      else match rest with
           | x :: xs => String c x :: xs
           | [] => [String c EmptyString]
           end
  end.

(** [s.split(a ++ b)] for a two-character separator: occurrences are taken
    from left to right without overlap. *)
Fixpoint split2 (a b : ascii) (s : string) : list string :=
  match s with
  | String c1 (String c2 r as s') =>
      if Ascii.eqb c1 a && Ascii.eqb c2 b then EmptyString :: split2 a b r
      else match split2 a b s' with
           | x :: xs => String c1 x :: xs
           | [] => [String c1 EmptyString]
           end
  | String c1 EmptyString => [String c1 EmptyString]
  | EmptyString => [EmptyString]
  end.

(** [s.indexOf(a ++ b)] *)
Fixpoint index2 (a b : ascii) (s : string) : option nat :=
  match s with
  | String c1 (String c2 _ as s') =>
      if Ascii.eqb c1 a && Ascii.eqb c2 b then Some 0
      else option_map S (index2 a b s')
  | _ => None
  end.

(** [s.substring(0, n)] and [s.substring(n)] *)
Fixpoint take (n : nat) (s : string) : string :=
  match n, s with
  | O, _ => EmptyString
  | _, EmptyString => EmptyString
  | S n', String c r => String c (take n' r)
  end.

Fixpoint drop (n : nat) (s : string) : string :=
  match n, s with
  | O, _ => s
  | _, EmptyString => EmptyString
  | S n', String _ r => drop n' r
  end.

(** [s.indexOf(p)] *)
Fixpoint index_of (p s : string) : option nat :=
  if starts_with p s then Some O
  else match s with
       | EmptyString => None
       | String _ r => option_map S (index_of p r)
       end.

(** [GetSubstitution] of [String.prototype.replace] for a match without
    capture groups: [$$], [$&], [$`] and [$'] are expanded, every other
    [$] stands for itself. *)
Fixpoint subst (matched before after : string) (r : string) : string :=
  match r with
  | String d (String c r' as t) =>
      if Ascii.eqb d "$" then
        if Ascii.eqb c "$" then String "$" (subst matched before after r')
        else if Ascii.eqb c "&" then matched ++ subst matched before after r'
        else if Ascii.eqb c "`" then before ++ subst matched before after r'
        else if Ascii.eqb c "'" then after ++ subst matched before after r'
        else String d (subst matched before after t)
      else String d (subst matched before after t)
  | String d EmptyString => String d EmptyString
  | EmptyString => EmptyString
  end.

End Str.

(* ------------------------------------------------------------------ *)
(** ** [ensureMdExtension] (lines 53-58) *)

Definition ensureMdExtension (path : string) : string :=
  if String.eqb path "" then path
  else if Str.ends_with ".md" (Str.to_lower path) then path
  else path ++ ".md".

(* ------------------------------------------------------------------ *)
(** ** Mapping resolution (lines 119-128 of [processBatch]) *)

Record Mapping := { tag : string; mocPath : string }.

(** [t.startsWith('#') ? t.substring(1) : t] *)
Definition strip_hash (t : string) : string :=
  if Str.starts_with "#" t then Str.drop1 t else t.

Definition matchingMappings (t : string) (ms : list Mapping) : list Mapping :=
  List.filter (fun m => String.eqb (strip_hash (tag m)) (strip_hash t)) ms.

(* ------------------------------------------------------------------ *)
(** ** [extractExistingLinks] (lines 300-315) *)

(** One element of [content.split('[[')] after the first: the text before
    the first [ ]] ], cut at the first [|] and trimmed, if it has a [ ]] ]. *)
Definition link_of_section (sec : string) : list string :=
  match Str.index2 "]" "]" sec with
  | Some k => [Str.trim (hd EmptyString (Str.split1 "|" (Str.take k sec)))]
  | None => []
  end.

Definition extractExistingLinks (content : string) : list string :=
  flat_map link_of_section (tl (Str.split2 "[" "[" content)).

(* ------------------------------------------------------------------ *)
(** ** [addLinkToMOC] (lines 201-210)

    [headingRegex] is [^H\s*$] with the [m] flag, where [H] is the
    heading with every pattern character ([.*+?^${}()|[]\]) escaped, so
    [H] is matched literally.  [test] and [replace] both use the leftmost
    match; [\s*] is greedy and gives back characters until [$] holds
    (end of input or before a line terminator). *)

Fixpoint ws_run (s : string) : nat :=
  match s with
  | String c r => if Str.is_ws c then S (ws_run r) else O
  | EmptyString => O
  end.

(** [$] in multiline mode, [k] characters into [s]. *)
Definition eol_at (s : string) (k : nat) : bool :=
  match String.get k s with
  | None => true
  | Some c => Str.is_lt c
  end.

(** Backtracking of [\s*]: the longest [k <= w] after which [$] holds. *)
Fixpoint back_ws (s : string) (k : nat) : option nat :=
  if eol_at s k then Some k
  else match k with O => None | S k' => back_ws s k' end.

(** Length of the match of [H\s*$] at the start of [s], if any. *)
Definition match_heading_at (H s : string) : option nat :=
  if Str.starts_with H s then
    let r := Str.drop (String.length H) s in
    option_map (fun k => String.length H + k) (back_ws r (ws_run r))
  else None.

(** Leftmost match: position and length.  [bol] tells whether [^] holds
    at the current position. *)
Fixpoint find_heading_from (H s : string) (bol : bool) (i : nat)
  : option (nat * nat) :=
  let next := match s with
              | EmptyString => None
              | String c r => find_heading_from H r (Str.is_lt c) (S i)
              end in
  if bol then
    match match_heading_at H s with
    | Some m => Some (i, m)
    | None => next
    end
  else next.

Definition find_heading (H content : string) : option (nat * nat) :=
  find_heading_from H content true 0.

Definition addLinkToMOC (content newLink sectionHeading : string) : string :=
  match find_heading sectionHeading content with
  | Some (i, m) =>
      let before := Str.take i content in
      let matched := Str.take m (Str.drop i content) in
      let after := Str.drop (i + m) content in
      before ++ Str.subst matched before after (sectionHeading ++ Str.nl ++ newLink)
      ++ after
  | None => content ++ Str.nl ++ Str.nl ++ sectionHeading ++ Str.nl ++ newLink
  end.

Definition NL := Str.nl.

(* ------------------------------------------------------------------ *)
(** ** [extractTags] (lines 241-298)

    Each regular expression is embedded as a matcher that follows the
    backtracking order of the JavaScript engine: greedy quantifiers try
    the longest repetition first ([down_from]), lazy ones the shortest,
    and [match] returns the match at the leftmost position ([first_pos]). *)

Module Tags.

Fixpoint down_from {A} (k : nat) (f : nat -> option A) : option A :=
  match f k with
  | Some x => Some x
  | None => match k with O => None | S k' => down_from k' f end
  end.

Fixpoint first_pos {A} (f : string -> option A) (s : string) : option A :=
  match f s with
  | Some x => Some x
  | None => match s with EmptyString => None | String _ r => first_pos f r end
  end.

Definition char_at (s : string) (k : nat) (c : ascii) : bool :=
  match String.get k s with Some d => Ascii.eqb d c | None => false end.

(** [^---\n([\s\S]*?)\n---]: the lazy group ends at the first [\n---]. *)
Definition frontmatter (content : string) : option string :=
  if Str.starts_with ("---" ++ Str.nl) content then
    let r := Str.drop 4 content in
    option_map (fun j => Str.take j r) (Str.index_of (Str.nl ++ "---") r)
  else None.

(** [tags\s*:\s*], then the continuation [k] on the rest. *)
Definition tags_colon {A} (k : string -> option A) (s : string) : option A :=
  if Str.starts_with "tags" s then
    let r1 := Str.drop 4 s in
    down_from (ws_run r1) (fun k1 =>
      if char_at r1 k1 ":" then
        let r2 := Str.drop (S k1) r1 in
        down_from (ws_run r2) (fun k2 => k (Str.drop k2 r2))
      else None)
  else None.

(** [[^\n\[\]]] *)
Definition single_class (c : ascii) : bool :=
  negb (Ascii.eqb c "010"%char || Ascii.eqb c "[" || Ascii.eqb c "]").

Fixpoint class_run (p : ascii -> bool) (s : string) : nat :=
  match s with
  | String c r => if p c then S (class_run p r) else O
  | EmptyString => O
  end.

(** [([^\n\[\]]+)(?:\n|$)] at the start of [s]; [$] is end of input. *)
Definition single_value (s : string) : option string :=
  down_from (class_run single_class s) (fun l =>
    match l with
    | O => None
    | S _ =>
        let r := Str.drop l s in
        if String.eqb r "" || Str.starts_with Str.nl r then Some (Str.take l s)
        else None
    end).

Definition singleTagMatch (fm : string) : option string :=
  first_pos (tags_colon single_value) fm.

(** [\[(.*?)\]]: the lazy group stops at the first [ ] ], and [.] does not
    cross a line terminator. *)
Fixpoint lazy_until_bracket (s : string) : option string :=
  match s with
  | EmptyString => None
  | String c r =>
      if Ascii.eqb c "]" then Some EmptyString
      else if Str.is_lt c then None
      else option_map (String c) (lazy_until_bracket r)
  end.

Definition array_value (s : string) : option string :=
  match s with
  | String c r => if Ascii.eqb c "[" then lazy_until_bracket r else None
  | EmptyString => None
  end.

Definition inlineArrayMatch (fm : string) : option string :=
  first_pos (tags_colon array_value) fm.

(** [/^tags\s*:/] on one line. *)
Definition is_tags_header (line : string) : bool :=
  match tags_colon (fun _ => Some tt) line with Some _ => true | None => false end.

(** [/^\s*-\s*(.+)$/] on one line. *)
Definition item_value (line : string) : option string :=
  down_from (ws_run line) (fun k1 =>
    if char_at line k1 "-" then
      let r2 := Str.drop (S k1) line in
      down_from (ws_run r2) (fun k2 =>
        let r3 := Str.drop k2 r2 in
        down_from (class_run (fun c => negb (Str.is_lt c)) r3) (fun l =>
          match l with
          | O => None
          | S _ => if String.eqb (Str.drop l r3) "" then Some (Str.take l r3) else None
          end))
    else None).

(** The [for (const line of lines)] loop with its [inTagsBlock] flag. *)
Fixpoint multiline_tags (inTagsBlock : bool) (lines : list string) : list string :=
  match lines with
  | [] => []
  | line :: rest =>
      if is_tags_header line then multiline_tags true rest
      else if inTagsBlock then
        match item_value line with
        | Some v => Str.trim v :: multiline_tags true rest
        | None =>
            if negb (Str.starts_with "-" (Str.trim line))
            then multiline_tags false rest
            else multiline_tags true rest
        end
      else multiline_tags false rest
  end.

Definition frontmatter_tags (fm : string) : list string :=
  match singleTagMatch fm with Some v => [Str.trim v] | None => [] end
  ++ match inlineArrayMatch fm with
     | Some (String _ _ as v) =>
         List.filter (fun t => negb (String.eqb t ""))
                     (List.map Str.trim (Str.split1 "," v))
     | _ => []
     end
  ++ multiline_tags false (Str.split1 "010"%char fm).

(** [/^([a-zA-Z0-9_-]+)/] *)
Definition tag_char (c : ascii) : bool :=
  let n := Str.code c in
  ((65 <=? n)%nat && (n <=? 90)%nat) || ((97 <=? n)%nat && (n <=? 122)%nat)
  || ((48 <=? n)%nat && (n <=? 57)%nat) || (n =? 95)%nat || (n =? 45)%nat.

Definition body_tag (part : string) : option string :=
  match class_run tag_char part with
  | O => None
  | l => Some (Str.take l part)
  end.

Definition bodyTags (content : string) : list string :=
  omap body_tag (tl (Str.split1 "#" content)).

Definition extractTags (content : string) : list string :=
  match frontmatter content with
  | Some (String _ _ as fm) => frontmatter_tags fm
  | _ => []
  end ++ bodyTags content.

End Tags.

(* ------------------------------------------------------------------ *)
(** ** The batch orchestrator ([runAutoIndex], [processBatch],
       [processTagMappings], lines 60-199) *)

Module Batch.

(** [s.replace(pat, rep)] for a string pattern: the first occurrence is
    replaced, [rep] going through [GetSubstitution]. *)
Definition replace_first (pat rep s : string) : string :=
  match Str.index_of pat s with
  | Some i =>
      let before := Str.take i s in
      let after := Str.drop (i + String.length pat) s in
      before ++ Str.subst pat before after rep ++ after
  | None => s
  end.

Record TFile := { path : string; basename : string; extension : string }.

Record Settings := {
  tagMappings : list Mapping;
  appendFormat : string;
  sectionHeading : string;
  batchSize : nat }.

(** The storage provider: which paths fail to read or to write. *)
Record Env := { read_fails : string -> bool; write_fails : string -> bool }.

(** A cache entry [{content, tags}] or [{content, links}]. *)
Record Entry := { content : string; items : list string }.

(** The plugin fields used by a run, and the vault contents (path of every
    existing file to its text).  [added] records the (hub path, basename)
    of every successful [vault.modify]; the source only logs it. *)
Record State := {
  vault : gmap string string;
  fileCache : gmap string Entry;
  mocLinksCache : gmap string Entry;
  totalNotesAdded : nat;
  added : list (string * string) }.

Definition set_vault v st := Build_State v (fileCache st) (mocLinksCache st) (totalNotesAdded st) (added st).
Definition set_fileCache c st := Build_State (vault st) c (mocLinksCache st) (totalNotesAdded st) (added st).
Definition set_mocLinksCache c st := Build_State (vault st) (fileCache st) c (totalNotesAdded st) (added st).

(** [vault.read]: fails on an unreadable or missing file. *)
Definition read (env : Env) (st : State) (p : string) : option string :=
  if read_fails env p then None else vault st !! p.

(** The body of the [for (const mapping of mappings)] loop.  Every
    [continue] and the [catch] return the state reached so far. *)
Definition processMapping (env : Env) (cfg : Settings) (file : TFile)
    (st : State) (mapping : Mapping) : State :=
  if String.eqb (mocPath mapping) "" then st else
  let p := ensureMdExtension (mocPath mapping) in
  match vault st !! p with
  | None => st (* MOC file not found *)
  | Some _ =>
      let loaded :=
        match mocLinksCache st !! p with
        | Some e => Some (e, st)
        | None =>
            match read env st p with
            | Some c =>
                let e := Build_Entry c (extractExistingLinks c) in
                Some (e, set_mocLinksCache (<[p := e]> (mocLinksCache st)) st)
            | None => None (* Failed to read MOC *)
            end
        end in
      match loaded with
      | None => st
      | Some (mocData, st1) =>
          let links := items mocData in
          let fileName := basename file in
          if existsb (String.eqb fileName) links then st1 else
          let newLink := replace_first "{{fileName}}" fileName (appendFormat cfg) in
          let heading := if String.eqb (sectionHeading cfg) "" then "## Links"
                         else sectionHeading cfg in
          let updatedContent := addLinkToMOC (content mocData) newLink heading in
          if write_fails env p then st1 (* caught: Error processing mapping *)
          else
            (* [vault.modify] (its ['modify'] event drops the file-cache
               entry), the counter, then the cache update. *)
            Build_State (<[p := updatedContent]> (vault st1))
                        (delete p (fileCache st1))
                        (<[p := Build_Entry updatedContent (links ++ [fileName])]>
                           (mocLinksCache st1))
                        (S (totalNotesAdded st1))
                        (added st1 ++ [(p, fileName)])
      end
  end.

Definition processTagMappings env cfg file (mappings : list Mapping) st : State :=
  fold_left (processMapping env cfg file) mappings st.

(** The body of the [for (const tag of tags)] loop.  [matchingMappings]
    strips a leading [#] from both sides. *)
Definition tag_step env cfg (file : TFile) (st2 : State) (t : string) : State :=
  match matchingMappings t (tagMappings cfg) with
  | [] => st2
  | ms => processTagMappings env cfg file ms st2
  end.

(** One iteration of the [for (const file of files)] loop. *)
Definition processFile (env : Env) (cfg : Settings) (st : State) (file : TFile) : State :=
  if negb (String.eqb (extension file) "md") then st else
  let cached :=
    match fileCache st !! path file with
    | Some e => Some (e, st)
    | None =>
        match read env st (path file) with
        | Some c =>
            let e := Build_Entry c (Tags.extractTags c) in
            Some (e, set_fileCache (<[path file := e]> (fileCache st)) st)
        | None => None (* Failed to read file *)
        end
    end in
  match cached with
  | None => st
  | Some (fileData, st1) => fold_left (tag_step env cfg file) (items fileData) st1
  end.

Definition processBatch env cfg (files : list TFile) st : State :=
  fold_left (processFile env cfg) files st.

(** [for (let i = 0; i < totalFiles; i += batchSize)]: [None] when the loop
    does not end within [fuel] rounds (with a batch size of 0 it never
    ends). *)
Fixpoint chunks env cfg (fuel : nat) (files : list TFile) st : option State :=
  match files with
  | [] => Some st
  | _ =>
      match fuel with
      | O => None
      | S fuel' =>
          chunks env cfg fuel' (skipn (batchSize cfg) files)
                 (processBatch env cfg (firstn (batchSize cfg) files) st)
      end
  end.

(** [runAutoIndex] on the files listed by [getFilesInPath]: the counter
    and the MOC cache are reset, the file cache is kept. *)
Definition runAutoIndex env cfg (files : list TFile) (st : State) : option State :=
  chunks env cfg (S (length files)) files
         (Build_State (vault st) (fileCache st) ∅ 0 []).

End Batch.

(* ------------------------------------------------------------------ *)
(** ** Predicates used in the statements *)

(** No [$] in a string (a replacement text that [GetSubstitution] leaves
    as it is). *)
Fixpoint no_dollar (s : string) : bool :=
  match s with
  | EmptyString => true
  | String c r => negb (Ascii.eqb c "$") && no_dollar r
  end.

Fixpoint all_ws (s : string) : bool :=
  match s with
  | EmptyString => true
  | String c r => Str.is_ws c && all_ws r
  end.

(** Whether [^] (multiline) holds after reading [s], when it held before
    iff [bol]: [line_start_after true s] says that [s] is empty or ends in
    a line terminator. *)
Fixpoint line_start_after (bol : bool) (s : string) : bool :=
  match s with
  | EmptyString => bol
  | String c r => line_start_after (Str.is_lt c) r
  end.

(** Number of positions at which [p] occurs in [s]. *)
Fixpoint occurrences (p s : string) : nat :=
  (if Str.starts_with p s then 1 else 0)
  + match s with EmptyString => 0 | String _ r => occurrences p r end.

(** Whether the last character of [s] is [c]. *)
Fixpoint last_char_is (c : ascii) (s : string) : bool :=
  match s with
  | EmptyString => false
  | String d EmptyString => Ascii.eqb d c
  | String _ r => last_char_is c r
  end.

(** Prefix the first piece of a split. *)
Definition prepend_head (x : string) (ps : list string) : list string :=
  match ps with
  | p :: ps' => (x ++ p) :: ps'
  | [] => [x]
  end.

Fixpoint str_forall (p : ascii -> bool) (s : string) : bool :=
  match s with
  | EmptyString => true
  | String c r => p c && str_forall p r
  end.

(** A tag written inside [tags: [a, b]]: not empty, already trimmed, and
    without [,], [ ] ] or line terminator. *)
Definition plain_tag (v : string) : bool :=
  negb (String.eqb v "") && String.eqb (Str.trim v) v
  && str_forall (fun c => negb (Ascii.eqb c ",") && negb (Ascii.eqb c "]")
                          && negb (Str.is_lt c)) v.

(** The characters a tag of an inline list may not contain. *)
Definition tag_safe (c : ascii) : bool :=
  negb (Ascii.eqb c ",") && negb (Ascii.eqb c "]") && negb (Str.is_lt c).

(** The tags a run uses for a note: the cached ones, or those of the text
    read from the vault. *)
Definition tags_of (env : Batch.Env) (st : Batch.State) (f : Batch.TFile)
    : option (list string) :=
  match Batch.fileCache st !! Batch.path f with
  | Some e => Some (Batch.items e)
  | None => option_map Tags.extractTags (Batch.read env st (Batch.path f))
  end.

(** Every readable hub that a tag of the note selects already lists the
    note's basename among its extracted links. *)
Definition already_linked (env : Batch.Env) (cfg : Batch.Settings)
    (st : Batch.State) (f : Batch.TFile) : Prop :=
  forall ts t m c,
    Batch.extension f = "md" ->
    tags_of env st f = Some ts -> In t ts ->
    In m (matchingMappings t (Batch.tagMappings cfg)) ->
    mocPath m <> "" ->
    Batch.vault st !! ensureMdExtension (mocPath m) = Some c ->
    Batch.read_fails env (ensureMdExtension (mocPath m)) = false ->
    In (Batch.basename f) (extractExistingLinks c).

(** What stays true along a run over such a vault, from the state [s0] it
    starts with: nothing written, nothing counted, every hub cache entry is
    the hub's text with its links, and the note cache only gains entries
    read from the vault. *)
Definition rerun_inv (env : Batch.Env) (s0 s : Batch.State) : Prop :=
  Batch.vault s = Batch.vault s0
  /\ Batch.totalNotesAdded s = 0
  /\ (forall p e, Batch.mocLinksCache s !! p = Some e ->
        Batch.vault s0 !! p = Some (Batch.content e)
        /\ Batch.items e = extractExistingLinks (Batch.content e)
        /\ Batch.read_fails env p = false)
  /\ (forall k e, Batch.fileCache s0 !! k = Some e -> Batch.fileCache s !! k = Some e)
  /\ (forall k e, Batch.fileCache s !! k = Some e ->
        Batch.fileCache s0 !! k = Some e
        \/ (Batch.fileCache s0 !! k = None
            /\ Batch.read env s0 k = Some (Batch.content e)
            /\ Batch.items e = Tags.extractTags (Batch.content e))).

(** Every logged insertion (hub path, basename) is distinct, and its
    basename is among the cached links of that hub. *)
Definition added_inv (s : Batch.State) : Prop :=
  NoDup (Batch.added s)
  /\ (forall p b, In (p, b) (Batch.added s) ->
        exists e, Batch.mocLinksCache s !! p = Some e /\ In b (Batch.items e)).

(** The end-to-end scenario: note [A.md] tagged [maths], a mapping from
    [maths] to [MOC], and the hub [MOC.md]. *)
Definition env0 : Batch.Env := Batch.Build_Env (fun _ => false) (fun _ => false).

Definition cfg0 : Batch.Settings :=
  Batch.Build_Settings [Build_Mapping "maths" "MOC"]
                       ("- [[{{fileName}}]]" ++ Str.nl) "## Links" 50.

Definition vault0 : gmap string string :=
  <["A.md" := "---" ++ Str.nl ++ "tags: [maths]" ++ Str.nl ++ "---" ++ Str.nl]>
    (<["MOC.md" := "## Links" ++ Str.nl]> ∅).

Definition files0 : list Batch.TFile :=
  [Batch.Build_TFile "A.md" "A" "md"; Batch.Build_TFile "MOC.md" "MOC" "md"].

Definition st0 : Batch.State := Batch.Build_State vault0 ∅ ∅ 0 [].

(** The text of [A.md] in [vault0]. *)
Definition noteA : string := "---" ++ Str.nl ++ "tags: [maths]" ++ Str.nl ++ "---" ++ Str.nl.

(** The same vault once [A.md] has been read and cached. *)
Definition st_cached : Batch.State :=
  Batch.Build_State vault0 (<["A.md" := Batch.Build_Entry noteA (Tags.extractTags noteA)]> ∅) ∅ 0 [].

(** The same vault with two mappings that name the same hub. *)
Definition cfg2 : Batch.Settings :=
  Batch.Build_Settings [Build_Mapping "maths" "MOC"; Build_Mapping "#maths" "MOC.md"]
                       ("- [[{{fileName}}]]" ++ Str.nl) "## Links" 50.

(* ------------------------------------------------------------------ *)
(** ** The rest of [main.js]: events, file listing, settings *)

(** The ['modify'] handler (lines 26-30): [file.path] must be non-empty and
    cached. *)
Definition on_modify (fc : gmap string Batch.Entry) (p : string) : gmap string Batch.Entry :=
  if String.eqb p "" then fc else
  match fc !! p with Some _ => delete p fc | None => fc end.

(** The ['delete'] handler (lines 32-36). *)
Definition on_delete (fc : gmap string Batch.Entry) (p : string) : gmap string Batch.Entry :=
  if String.eqb p "" then fc else delete p fc.

(** A change of a file outside the plugin, then the ['modify'] event. *)
Definition external_modify (st : Batch.State) (p c : string) : Batch.State :=
  Batch.set_fileCache (on_modify (Batch.fileCache st) p)
                      (Batch.set_vault (<[p := c]> (Batch.vault st)) st).

(** A deletion of a file, then the ['delete'] event. *)
Definition external_delete (st : Batch.State) (p : string) : Batch.State :=
  Batch.set_fileCache (on_delete (Batch.fileCache st) p)
                      (Batch.set_vault (delete p (Batch.vault st)) st).

(** A vault entry as [getFilesInPath] sees it: a folder (it has
    [children]) or a file. *)
Inductive AFile :=
  | AFolder (children : list AFile)
  | ALeaf (f : Batch.TFile).

(** [collectFiles] (lines 225-233), on one child. *)
Fixpoint collect_child (child : AFile) : list Batch.TFile :=
  match child with
  | AFolder ch =>
      (fix go (l : list AFile) : list Batch.TFile :=
         match l with
         | [] => []
         | c :: r => collect_child c ++ go r
         end)%list ch
  | ALeaf f => if String.eqb (Batch.extension f) "md" then [f] else []
  end.

(** [collectFiles(folder)]: the children of the folder, in order. *)
Definition collectFiles (children : list AFile) : list Batch.TFile :=
  flat_map collect_child children.

(** The two vault queries [getFilesInPath] uses. *)
Record VaultTree := {
  getMarkdownFiles : list Batch.TFile;
  getAbstractFileByPath : string -> option AFile }.

(** [getFilesInPath] (lines 212-238). *)
Definition getFilesInPath (vt : VaultTree) (path : string) : list Batch.TFile :=
  if String.eqb path "/" then getMarkdownFiles vt else
  match getAbstractFileByPath vt path with
  | Some (AFolder ch) => collectFiles ch
  | _ => []
  end.

(** A markdown file somewhere below a list of children. *)
Inductive md_under : list AFile -> Batch.TFile -> Prop :=
  | md_here ch f : In (ALeaf f) ch -> Batch.extension f = "md" -> md_under ch f
  | md_deeper ch ch' f : In (AFolder ch') ch -> md_under ch' f -> md_under ch f.

(** The text the settings tab shows for a hub path (line 400):
    [mapping.mocPath ? mapping.mocPath.replace(/\.md$/i, '') : '']. *)
Definition displayMocPath (mocPath : string) : string :=
  if String.eqb mocPath "" then "" else
  if Str.ends_with ".md" (Str.to_lower mocPath)
  then Str.take (String.length mocPath - 3) mocPath
  else mocPath.

(** The characters of [/[.*+?^${}()|[\]\\]/g] (line 203). *)
Definition regex_special (c : ascii) : bool :=
  existsb (Ascii.eqb c) ["."; "*"; "+"; "?"; "^"; "$"; "{"; "}"; "("; ")"; "|";
                         "["; "]"; "\"]%char.

(** [sectionHeading.replace(/[.*+?^${}()|[\]\\]/g, '\\$&')]: a backslash
    before every such character. *)
Fixpoint escapeRegExp (s : string) : string :=
  match s with
  | EmptyString => EmptyString
  | String c r =>
      if regex_special c then String "\" (String c (escapeRegExp r))
      else String c (escapeRegExp r)
  end.

(** The reading of a regular-expression source made only of literal
    characters and identity escapes of syntax characters (ECMAScript
    [PatternCharacter] and [\ SyntaxCharacter]): the string it matches, or
    [None] when the source has any other construct. *)
Fixpoint literal_pattern (p : string) : option string :=
  match p with
  | EmptyString => Some EmptyString
  | String c r =>
      if Ascii.eqb c "\" then
        match r with
        | String d r' =>
            if regex_special d then option_map (String d) (literal_pattern r') else None
        | EmptyString => None
        end
      else if regex_special c then None
      else option_map (String c) (literal_pattern r)
  end.

(** The link line and heading [processTagMappings] uses for a note. *)
Definition link_line (cfg : Batch.Settings) (fileName : string) : string :=
  Batch.replace_first "{{fileName}}" fileName (Batch.appendFormat cfg).

Definition heading_of (cfg : Batch.Settings) : string :=
  if String.eqb (Batch.sectionHeading cfg) "" then "## Links" else Batch.sectionHeading cfg.

(** The text of hub [p] after the insertions [adds] (hub path, basename),
    in order, starting from [c]. *)
Definition replay (cfg : Batch.Settings) (p : string) (adds : list (string * string))
    (c : string) : string :=
  fold_left (fun c pb => if String.eqb (fst pb) p
                         then addLinkToMOC c (link_line cfg (snd pb)) (heading_of cfg)
                         else c) adds c.

(** The settings with another batch size. *)
Definition with_batch (cfg : Batch.Settings) (n : nat) : Batch.Settings :=
  Batch.Build_Settings (Batch.tagMappings cfg) (Batch.appendFormat cfg)
                       (Batch.sectionHeading cfg) n.

(** The settings without the mappings whose hub path is empty (such as a
    mapping just added in the settings tab, lines 420-423). *)
Definition drop_unset (cfg : Batch.Settings) : Batch.Settings :=
  Batch.Build_Settings
    (List.filter (fun m => negb (String.eqb (mocPath m) "")) (Batch.tagMappings cfg))
    (Batch.appendFormat cfg) (Batch.sectionHeading cfg) (Batch.batchSize cfg).

(** Every note-cache entry holds the note's current text and its tags. *)
Definition file_cache_fresh (s : Batch.State) : Prop :=
  forall k e, Batch.fileCache s !! k = Some e ->
    Batch.vault s !! k = Some (Batch.content e)
    /\ Batch.items e = Tags.extractTags (Batch.content e).

(** What a run keeps, from the state [s0] it starts with: the vault is the
    original one with the logged insertions replayed, every hub cache entry
    holds the hub's current text, the counter counts the log, and every
    logged insertion comes from a mapping and a listed note. *)
Definition write_inv (cfg : Batch.Settings) (files : list Batch.TFile) (s0 s : Batch.State) : Prop :=
  (forall q, Batch.vault s !! q = option_map (replay cfg q (Batch.added s)) (Batch.vault s0 !! q))
  /\ (forall q e, Batch.mocLinksCache s !! q = Some e -> Batch.vault s !! q = Some (Batch.content e))
  /\ Batch.totalNotesAdded s = length (Batch.added s)
  /\ (forall q b, In (q, b) (Batch.added s) ->
        exists m f, In m (Batch.tagMappings cfg) /\ mocPath m <> ""
                    /\ q = ensureMdExtension (mocPath m)
                    /\ In f files /\ Batch.extension f = "md" /\ Batch.basename f = b).

(** A markdown file is [f] itself or below the folder [a]. *)
Definition md_child (a : AFile) (f : Batch.TFile) : Prop :=
  match a with
  | ALeaf g => g = f /\ Batch.extension f = "md"
  | AFolder ch => md_under ch f
  end.

(** No [sep] in a string. *)
Definition nosep (sep : ascii) := str_forall (fun d => negb (Ascii.eqb d sep)).

(** Empty, or starting with a non-whitespace character. *)
Definition trimmed_head (s : string) : Prop :=
  s = "" \/ exists c r, s = String c r /\ Str.is_ws c = false.

(** "Add New Mapping" (lines 417-423): [push({tag: '', mocPath: ''})]. *)
Definition addMapping (cfg : Batch.Settings) : Batch.Settings :=
  Batch.Build_Settings (Batch.tagMappings cfg ++ [Build_Mapping "" ""])%list
    (Batch.appendFormat cfg) (Batch.sectionHeading cfg) (Batch.batchSize cfg).

(* ================================================================== *)
(** * Properties *)

(** ** Evaluation on small inputs *)

Example tg1 : Tags.extractTags ("---" ++ NL ++ "tags: [maths]" ++ NL ++ "---" ++ NL)
  = ["maths"]. Proof. reflexivity. Qed.
Example tg2 : Tags.extractTags ("---" ++ NL ++ "tags: x" ++ NL ++ "---" ++ NL ++ "#y z#w")
  = ["x"; "y"; "w"]. Proof. reflexivity. Qed.
Example tg3 : Tags.extractTags ("---" ++ NL ++ "tags:" ++ NL ++ " - a" ++ NL ++ "- b "
  ++ NL ++ "x: 1" ++ NL ++ "- c" ++ NL ++ "---")
  = ["- a"; "a"; "b"]. Proof. reflexivity. Qed.
Example tg4 : Tags.extractTags ("---" ++ NL ++ "subtags: [c]" ++ NL ++ "tags: [a, b]"
  ++ NL ++ "---") = ["c"]. Proof. reflexivity. Qed.

Example mg1 : addLinkToMOC ("## Links" ++ NL) ("- [[A]]" ++ NL) "## Links"
  = "## Links" ++ NL ++ "- [[A]]" ++ NL. Proof. reflexivity. Qed.
Example mg2 : addLinkToMOC ("## Links" ++ NL ++ "- [[A]]") "- [[B]]" "## Links"
  = "## Links" ++ NL ++ "- [[B]]" ++ NL ++ "- [[A]]". Proof. reflexivity. Qed.
Example mg3 : addLinkToMOC ("## Links" ++ NL ++ NL ++ "- [[A]]") "- [[B]]" "## Links"
  = "## Links" ++ NL ++ "- [[B]]" ++ NL ++ "- [[A]]". Proof. reflexivity. Qed.
Example mg4 : addLinkToMOC "H" "$&" "H" = "H" ++ NL ++ "H". Proof. reflexivity. Qed.
Example el1 : extractExistingLinks "x [[a|b ]] [[ c ]] [[d" = ["a"; "c"]. Proof. reflexivity. Qed.
Example el2 : extractExistingLinks "[[a [[b]]" = ["b"]. Proof. reflexivity. Qed.

Example ens1 : ensureMdExtension "MOC" = "MOC.md". Proof. reflexivity. Qed.
Example ens2 : ensureMdExtension "x.MD" = "x.MD". Proof. reflexivity. Qed.
Example tr1 : Str.trim "  a b  " = "a b". Proof. reflexivity. Qed.
Example sp1 : Str.split2 "[" "[" "[[a]][[b" = [""; "a]]"; "b"]. Proof. reflexivity. Qed.

(** ** String facts *)

Module StrFacts.

Lemma app_cons (c : ascii) (a b : string) : String c a ++ b = String c (a ++ b).
Proof. reflexivity. Qed.

Lemma app_nil_l (a : string) : "" ++ a = a.
Proof. reflexivity. Qed.

Lemma app_nil_r (a : string) : a ++ "" = a.
Proof. induction a as [|c a IH]; [reflexivity|]. rewrite app_cons, IH. reflexivity. Qed.

Lemma app_assoc (a b c : string) : (a ++ b) ++ c = a ++ (b ++ c).
Proof. induction a as [|x a IH]; [reflexivity|]. rewrite !app_cons, IH. reflexivity. Qed.

Lemma rev_str_app (a b : string) :
  Str.rev_str (a ++ b) = Str.rev_str b ++ Str.rev_str a.
Proof.
  induction a as [|x a IH]; simpl.
  - rewrite app_nil_r. reflexivity.
  - rewrite IH, app_assoc. reflexivity.
Qed.

Lemma rev_str_involutive (s : string) : Str.rev_str (Str.rev_str s) = s.
Proof.
  induction s as [|x s IH]; simpl; [reflexivity|].
  rewrite rev_str_app, IH. reflexivity.
Qed.

Lemma to_lower_app (a b : string) :
  Str.to_lower (a ++ b) = Str.to_lower a ++ Str.to_lower b.
Proof. induction a as [|x a IH]; simpl; [reflexivity|]. rewrite IH. reflexivity. Qed.

Lemma rev_to_lower (s : string) :
  Str.rev_str (Str.to_lower s) = Str.to_lower (Str.rev_str s).
Proof.
  induction s as [|x s IH]; simpl; [reflexivity|].
  rewrite to_lower_app, IH. reflexivity.
Qed.

Lemma prefix_app (p s : string) : String.prefix p (p ++ s) = true.
Proof.
  induction p as [|x p IH]; [destruct s; reflexivity|].
  rewrite app_cons. simpl. destruct (ascii_dec x x); [exact IH|congruence].
Qed.

Lemma prefix_cons (a b : ascii) (p s : string) :
  String.prefix (String a p) (String b s)
  = (if ascii_dec a b then String.prefix p s else false).
Proof. reflexivity. Qed.

Ltac all_chars c :=
  destruct c as [[] [] [] [] [] [] [] []]; vm_compute; intros; try discriminate; auto.

Lemma lower_d (c : ascii) : Str.lower c = "d"%char -> c = "d"%char \/ c = "D"%char.
Proof. all_chars c. Qed.

Lemma lower_m (c : ascii) : Str.lower c = "m"%char -> c = "m"%char \/ c = "M"%char.
Proof. all_chars c. Qed.

Lemma lower_dot (c : ascii) : Str.lower c = "."%char -> c = "."%char.
Proof. all_chars c. Qed.

End StrFacts.

(** The extensions [ensureMdExtension] accepts as [.md]. *)
Definition md_spellings : list string := ["md"; "mD"; "Md"; "MD"].

Lemma ends_md_iff (p : string) :
  Str.ends_with ".md" (Str.to_lower p) = true <->
  exists q x, In x md_spellings /\ p = q ++ "." ++ x.
Proof.
  unfold Str.ends_with, Str.starts_with. split.
  - intros H. rewrite StrFacts.rev_to_lower in H.
    change (Str.rev_str ".md") with "dm." in H.
    rewrite <- (StrFacts.rev_str_involutive p).
    revert H. generalize (Str.rev_str p) as r. intros r H.
    destruct r as [|c1 [|c2 [|c3 r]]]; cbn [Str.to_lower] in H;
      rewrite ?StrFacts.prefix_cons in H;
      repeat match type of H with
      | context [ascii_dec ?a ?b] => destruct (ascii_dec a b) as [?E|]; [|discriminate]
      end; try discriminate.
    symmetry in E, E0, E1.
    apply StrFacts.lower_d in E. apply StrFacts.lower_m in E0.
    apply StrFacts.lower_dot in E1. subst c3.
    exists (Str.rev_str r), (String c2 (String c1 "")).
    split.
    + unfold md_spellings. destruct E as [->| ->], E0 as [->| ->]; simpl; tauto.
    + cbn [Str.rev_str]. rewrite !StrFacts.app_assoc. reflexivity.
  - intros (q & x & Hx & ->).
    rewrite StrFacts.to_lower_app.
    assert (Str.to_lower ("." ++ x) = ".md") as ->.
    { destruct Hx as [<-|[<-|[<-|[<-|[]]]]]; reflexivity. }
    rewrite StrFacts.rev_str_app. apply StrFacts.prefix_app.
Qed.

(** C10: [ensureMdExtension] returns the empty path and any path ending in
    [.md] (in any letter case) unchanged, appends [.md] to every other path,
    and is therefore idempotent. *)
Theorem ensureMdExtension_cases (p : string) :
  (p = "" -> ensureMdExtension p = p)
  /\ (forall q x, In x md_spellings -> ensureMdExtension (q ++ "." ++ x) = q ++ "." ++ x)
  /\ (p <> "" -> (forall q x, In x md_spellings -> p <> q ++ "." ++ x) ->
      ensureMdExtension p = p ++ ".md")
  /\ ensureMdExtension (ensureMdExtension p) = ensureMdExtension p.
Proof.
  assert (Hmd : forall q x, In x md_spellings ->
            ensureMdExtension (q ++ "." ++ x) = q ++ "." ++ x).
  { intros q x Hx. unfold ensureMdExtension.
    destruct (String.eqb_spec (q ++ "." ++ x) "") as [E|_]; [reflexivity|].
    assert (Str.ends_with ".md" (Str.to_lower (q ++ "." ++ x)) = true) as ->
      by (apply ends_md_iff; eauto).
    reflexivity. }
  split; [|split; [exact Hmd|split]].
  - intros ->. reflexivity.
  - intros Hne Hnot. unfold ensureMdExtension.
    destruct (String.eqb_spec p "") as [E|_]; [contradiction|].
    destruct (Str.ends_with ".md" (Str.to_lower p)) eqn:E; [|reflexivity].
    apply ends_md_iff in E as (q & x & Hx & Ep). exfalso. exact (Hnot q x Hx Ep).
  - destruct (String.eqb_spec p "") as [->|Hne]; [reflexivity|].
    apply String.eqb_neq in Hne.
    destruct (Str.ends_with ".md" (Str.to_lower p)) eqn:E.
    + assert (Hp : ensureMdExtension p = p)
        by (unfold ensureMdExtension; rewrite Hne, E; reflexivity).
      rewrite !Hp. reflexivity.
    + assert (Hp : ensureMdExtension p = p ++ ".md")
        by (unfold ensureMdExtension; rewrite Hne, E; reflexivity).
      rewrite Hp. exact (Hmd p "md" ltac:(left; reflexivity)).
Qed.

(** C8: [processBatch] selects, for a tag, exactly the mappings whose tag
    equals it once a leading [#] is stripped from both (exact, case-sensitive
    string equality); nothing matching gives the empty list; and a tag
    without [#] selects the same mappings as the same tag with [#]. *)
Theorem matchingMappings_spec (t : string) (ms : list Mapping) :
  (forall m, In m (matchingMappings t ms) <-> In m ms /\ strip_hash (tag m) = strip_hash t)
  /\ (matchingMappings t ms = [] <->
      forall m, In m ms -> strip_hash (tag m) <> strip_hash t)
  /\ (forall u, Str.starts_with "#" u = false ->
      matchingMappings ("#" ++ u) ms = matchingMappings u ms).
Proof.
  assert (Hin : forall m, In m (matchingMappings t ms) <->
                          In m ms /\ strip_hash (tag m) = strip_hash t).
  { intros m. unfold matchingMappings. rewrite filter_In, String.eqb_eq. reflexivity. }
  split; [exact Hin|split].
  - split.
    + intros E m Hm Heq. assert (In m (matchingMappings t ms)) as H by (apply Hin; auto).
      rewrite E in H. destruct H.
    + intros Hno. destruct (matchingMappings t ms) as [|m l] eqn:E; [reflexivity|].
      exfalso. assert (Hm : In m (m :: l)) by (left; reflexivity).
      apply Hin in Hm as [Hm Heq]. exact (Hno m Hm Heq).
  - intros u Hu. unfold matchingMappings.
    assert (strip_hash ("#" ++ u) = strip_hash u) as ->; [|reflexivity].
    unfold strip_hash. rewrite Hu.
    change (Str.starts_with "#" ("#" ++ u)) with (String.prefix "#" ("#" ++ u)).
    rewrite StrFacts.prefix_app. reflexivity.
Qed.

(** ** Take, drop and append *)

Module TakeDrop.
Import StrFacts.

Lemma take_drop (n : nat) (s : string) : Str.take n s ++ Str.drop n s = s.
Proof.
  revert s; induction n as [|n IH]; intros [|c s]; try reflexivity.
  cbn [Str.take Str.drop]. rewrite app_cons, IH. reflexivity.
Qed.

Lemma drop_add (a b : nat) (s : string) : Str.drop (a + b) s = Str.drop b (Str.drop a s).
Proof.
  revert s; induction a as [|a IH]; intros [|c s]; try reflexivity.
  - destruct b; reflexivity.
  - apply IH.
Qed.

Lemma drop_app_length (a b : string) : Str.drop (String.length a) (a ++ b) = b.
Proof.
  induction a as [|c a IH]; [reflexivity|].
  rewrite app_cons. cbn [String.length Str.drop]. exact IH.
Qed.

Lemma take_app_length (a b : string) : Str.take (String.length a) (a ++ b) = a.
Proof.
  induction a as [|c a IH]; [reflexivity|].
  rewrite app_cons. cbn [String.length Str.take]. rewrite IH. reflexivity.
Qed.

Lemma length_app (a b : string) :
  String.length (a ++ b) = (String.length a + String.length b)%nat.
Proof.
  induction a as [|c a IH]; [reflexivity|].
  rewrite app_cons. cbn [String.length]. rewrite IH. reflexivity.
Qed.





Lemma all_ws_app (a b : string) : all_ws (a ++ b) = all_ws a && all_ws b.
Proof.
  induction a as [|c a IH]; [reflexivity|].
  rewrite app_cons. cbn [all_ws]. rewrite IH, andb_assoc. reflexivity.
Qed.

Lemma line_start_after_app (bol : bool) (a b : string) :
  line_start_after bol (a ++ b) = line_start_after (line_start_after bol a) b.
Proof.
  revert bol; induction a as [|c a IH]; intros bol; [reflexivity|].
  rewrite app_cons. cbn [line_start_after]. apply IH.
Qed.

End TakeDrop.

(** ** The heading search of [addLinkToMOC] *)

Module Heading.
Import StrFacts TakeDrop.












Lemma subst_step (matched before after : string) (d c : ascii) (r : string) :
  Str.subst matched before after (String d (String c r))
  = if Ascii.eqb d "$" then
      if Ascii.eqb c "$" then String "$" (Str.subst matched before after r)
      else if Ascii.eqb c "&" then matched ++ Str.subst matched before after r
      else if Ascii.eqb c "`" then before ++ Str.subst matched before after r
      else if Ascii.eqb c "'" then after ++ Str.subst matched before after r
      else String d (Str.subst matched before after (String c r))
    else String d (Str.subst matched before after (String c r)).
Proof. reflexivity. Qed.

Lemma subst_no_dollar (matched before after r : string) :
  no_dollar r = true -> Str.subst matched before after r = r.
Proof.
  induction r as [|d t IH]; intros Hr; [reflexivity|].
  cbn [no_dollar] in Hr. apply andb_prop in Hr as [Hd Ht].
  destruct t as [|c r']; [reflexivity|].
  rewrite subst_step. apply negb_true_iff in Hd. rewrite Hd.
  rewrite (IH Ht). reflexivity.
Qed.

End Heading.

(** ** Merging a link into a MOC *)




(** C4 (code bug): the heading is found and the link is put directly under
    it, but [\\s*] in [^H\\s*$] also matches line breaks, so the blank
    lines that follow the heading are replaced as well: a blank line
    between the heading and the first entry disappears.  Without a blank
    line the specification's example holds. *)
Theorem addLinkToMOC_heading_reuse :
  addLinkToMOC ("## Links" ++ NL ++ "- [[A]]") "- [[B]]" "## Links"
    = "## Links" ++ NL ++ "- [[B]]" ++ NL ++ "- [[A]]"
  /\ addLinkToMOC ("## Links" ++ NL ++ NL ++ "- [[A]]") "- [[B]]" "## Links"
    = "## Links" ++ NL ++ "- [[B]]" ++ NL ++ "- [[A]]"
  /\ addLinkToMOC ("## Links" ++ NL ++ NL ++ "- [[A]]") "- [[B]]" "## Links"
    <> "## Links" ++ NL ++ "- [[B]]" ++ NL ++ NL ++ "- [[A]]".
Proof. split; [reflexivity|split; [reflexivity|]]. vm_compute. discriminate. Qed.

(** ** Splitting on [ [[ ] *)

Module Split.
Import StrFacts TakeDrop.

Lemma split2_step (a b c1 c2 : ascii) (r : string) :
  Str.split2 a b (String c1 (String c2 r))
  = if Ascii.eqb c1 a && Ascii.eqb c2 b then "" :: Str.split2 a b r
    else prepend_head (String c1 "") (Str.split2 a b (String c2 r)).
Proof. cbn [Str.split2]. destruct (_ && _); [reflexivity|]. destruct (Str.split2 a b _); reflexivity. Qed.

Lemma two_app (a b : ascii) (z : string) :
  String a (String b "") ++ z = String a (String b z).
Proof. reflexivity. Qed.

Lemma index2_step (a b c1 c2 : ascii) (r : string) :
  Str.index2 a b (String c1 (String c2 r))
  = if Ascii.eqb c1 a && Ascii.eqb c2 b then Some 0
    else option_map S (Str.index2 a b (String c2 r)).
Proof. reflexivity. Qed.

Lemma split2_one (a b c1 : ascii) : Str.split2 a b (String c1 "") = [String c1 ""].
Proof. reflexivity. Qed.

Lemma split2_nonempty (a b : ascii) (s : string) : Str.split2 a b s <> [].
Proof.
  destruct s as [|c1 [|c2 r]]; try discriminate.
  rewrite split2_step. destruct (_ && _); [discriminate|].
  destruct (Str.split2 a b (String c2 r)); discriminate.
Qed.

(** Induction that follows [split2]: a property of [r] and of every
    [String c r]. *)
Lemma pair_ind (P : string -> Prop) :
  P "" -> (forall c, P (String c "")) ->
  (forall c1 c2 r, P r -> P (String c2 r) -> P (String c1 (String c2 r))) ->
  forall s, P s.
Proof.
  intros H0 H1 H2 s.
  enough (P s /\ forall c, P (String c s)) by tauto.
  induction s as [|c2 r [IHr IHc]]; split; auto.
Qed.

Lemma prepend_head_app (x : string) (ps qs : list string) :
  ps <> [] -> prepend_head x (ps ++ qs)%list = (prepend_head x ps ++ qs)%list.
Proof. destruct ps; [congruence|reflexivity]. Qed.

Lemma prepend_head_cons (x y : string) (ps : list string) :
  prepend_head x (prepend_head y ps) = prepend_head (x ++ y) ps.
Proof. destruct ps; cbn; rewrite ?app_assoc, ?app_nil_r; reflexivity. Qed.

(** A [ [[ ] that does not follow a [ [ ] separates. *)
Lemma split2_sep (pre z : string) :
  last_char_is "[" pre = false ->
  Str.split2 "[" "[" (pre ++ "[[" ++ z)
  = (Str.split2 "[" "[" pre ++ Str.split2 "[" "[" z)%list.
Proof.
  induction pre as [| |c1 c2 r IHr IHc] using pair_ind; intros Hl.
  - reflexivity.
  - cbn [last_char_is] in Hl. rewrite app_cons, app_nil_l, two_app, split2_step, Hl.
    reflexivity.
  - rewrite app_cons, app_cons, split2_step, split2_step.
    assert (Hl' : last_char_is "[" (String c2 r) = false)
      by (destruct r; exact Hl).
    destruct (_ && _) eqn:E.
    + destruct r as [|c3 r'].
      * cbn in Hl. apply andb_prop in E as [_ E]. congruence.
      * rewrite IHr by exact Hl. reflexivity.
    + rewrite <- app_cons, IHc by exact Hl'.
      rewrite prepend_head_app by apply split2_nonempty. reflexivity.
Qed.

(** A text without [ [[ ] that does not end in [ [ ] joins the first piece. *)
Lemma split2_glue (x y : string) :
  Str.index2 "[" "[" x = None -> last_char_is "[" x = false ->
  Str.split2 "[" "[" (x ++ y) = prepend_head x (Str.split2 "[" "[" y).
Proof.
  induction x as [| c1 |c1 c2 r IHr IHc] using pair_ind; intros Hi Hl.
  - rewrite app_nil_l.
    destruct (Str.split2 "[" "[" y) eqn:E; [exfalso; exact (split2_nonempty _ _ _ E)|].
    reflexivity.
  - cbn [last_char_is] in Hl. rewrite app_cons, app_nil_l.
    destruct y as [|c2 y'].
    + reflexivity.
    + rewrite split2_step, Hl. reflexivity.
  - rewrite index2_step in Hi. destruct (_ && _) eqn:E; [discriminate|].
    rewrite app_cons, app_cons, split2_step, E, <- app_cons.
    rewrite IHc; [apply prepend_head_cons| |].
    + destruct (Str.index2 "[" "[" (String c2 r)); [discriminate|reflexivity].
    + destruct r; exact Hl.
Qed.

Lemma split2_no_sep (x : string) :
  Str.index2 "[" "[" x = None -> Str.split2 "[" "[" x = [x].
Proof.
  induction x as [| c1 |c1 c2 r IHr IHc] using pair_ind; intros Hi; try reflexivity.
  rewrite index2_step in Hi. rewrite split2_step.
  destruct (_ && _); [discriminate|].
  rewrite IHc; [reflexivity|]. destruct (Str.index2 "[" "[" (String c2 r)); [discriminate|reflexivity].
Qed.

Lemma split2_head_first (c2 : ascii) (r x : string) (xs : list string) :
  Str.split2 "[" "[" (String c2 r) = x :: xs -> x = "" \/ exists x', x = String c2 x'.
Proof.
  destruct r as [|c3 r'].
  - rewrite split2_one. intros E; inversion E; subst; eauto.
  - rewrite split2_step. destruct (_ && _); intros E.
    + inversion E; auto.
    + destruct (Str.split2 "[" "[" (String c3 r')); inversion E; subst; eauto.
Qed.

Lemma index2_tail (a b c : ascii) (s : string) :
  Str.index2 a b (String c s) = None -> Str.index2 a b s = None.
Proof.
  destruct s as [|d s]; [reflexivity|]. rewrite index2_step.
  destruct (_ && _); [discriminate|]. destruct (Str.index2 a b (String d s)); [discriminate|auto].
Qed.

(** Without a [ ]] ], no piece has one. *)
Lemma split2_no_close (z : string) :
  Str.index2 "]" "]" z = None ->
  forall p, In p (Str.split2 "[" "[" z) -> Str.index2 "]" "]" p = None.
Proof.
  induction z as [| c1 |c1 c2 r IHr IHc] using pair_ind; intros Hz p Hp.
  - destruct Hp as [<-|[]]. reflexivity.
  - destruct Hp as [<-|[]]. reflexivity.
  - rewrite split2_step in Hp. destruct (_ && _).
    + destruct Hp as [<-|Hp]; [reflexivity|].
      apply (IHr (index2_tail _ _ _ _ (index2_tail _ _ _ _ Hz)) p Hp).
    + pose proof (index2_tail _ _ _ _ Hz) as Hz'.
      destruct (Str.split2 "[" "[" (String c2 r)) as [|x xs] eqn:E;
        [exfalso; exact (split2_nonempty _ _ _ E)|].
      destruct Hp as [<-|Hp]; [|apply (IHc Hz' p); right; exact Hp].
      destruct (split2_head_first _ _ _ _ E) as [->|[x' ->]]; [reflexivity|].
      rewrite app_cons, app_nil_l, index2_step.
      rewrite index2_step in Hz. destruct (_ && _); [discriminate|].
      rewrite (IHc Hz' (String c2 x')); [reflexivity|left; reflexivity].
Qed.

Lemma index2_close (body rest : string) :
  Str.index2 "]" "]" body = None -> last_char_is "]" body = false ->
  Str.index2 "]" "]" (body ++ "]]" ++ rest) = Some (String.length body).
Proof.
  induction body as [| c1 |c1 c2 r IHr IHc] using pair_ind; intros Hi Hl.
  - reflexivity.
  - cbn [last_char_is] in Hl. rewrite app_cons, app_nil_l, two_app, index2_step, Hl.
    reflexivity.
  - rewrite index2_step in Hi. rewrite app_cons, app_cons, index2_step.
    destruct (_ && _); [discriminate|]. rewrite <- app_cons, IHc; [reflexivity| |].
    + destruct (Str.index2 "]" "]" (String c2 r)); [discriminate|reflexivity].
    + destruct r; exact Hl.
Qed.

Lemma index2_open_close (body : string) :
  Str.index2 "[" "[" body = None -> Str.index2 "[" "[" (body ++ "]]") = None.
Proof.
  induction body as [| c1 |c1 c2 r IHr IHc] using pair_ind; intros Hi; try reflexivity.
  - rewrite app_cons, app_nil_l, index2_step. destruct (_ && _) eqn:E; [|reflexivity].
    apply andb_prop in E as [_ E]. discriminate.
  - rewrite index2_step in Hi. rewrite app_cons, app_cons, index2_step.
    destruct (_ && _); [discriminate|]. rewrite <- app_cons, IHc; [reflexivity|].
    destruct (Str.index2 "[" "[" (String c2 r)); [discriminate|reflexivity].
Qed.

Lemma last_char_is_app2 (c a b : ascii) (x : string) :
  last_char_is c (x ++ String a (String b "")) = Ascii.eqb b c.
Proof.
  induction x as [|d x IH]; [reflexivity|].
  rewrite app_cons. cbn [last_char_is].
  destruct (x ++ String a (String b "")) eqn:E; [destruct x; discriminate|exact IH].
Qed.

End Split.

(** ** [extractExistingLinks] *)

Module Links.
Import StrFacts TakeDrop Split.

Lemma link_of_section_close (body rest : string) :
  Str.index2 "]" "]" body = None -> last_char_is "]" body = false ->
  link_of_section (body ++ "]]" ++ rest) = [Str.trim (hd "" (Str.split1 "|" body))].
Proof.
  intros Hi Hl. unfold link_of_section. rewrite index2_close by assumption.
  rewrite take_app_length. reflexivity.
Qed.

Lemma links_no_close (z : string) :
  Str.index2 "]" "]" z = None -> flat_map link_of_section (Str.split2 "[" "[" z) = [].
Proof.
  intros Hz. pose proof (split2_no_close z Hz) as H.
  induction (Str.split2 "[" "[" z) as [|p ps IH]; [reflexivity|].
  cbn [flat_map]. unfold link_of_section at 1. rewrite (H p (or_introl eq_refl)).
  apply IH. intros q Hq. apply H. right. exact Hq.
Qed.

Lemma tl_app_nonempty {A} (l1 l2 : list A) : l1 <> [] -> tl (l1 ++ l2)%list = (tl l1 ++ l2)%list.
Proof. destruct l1; [congruence|reflexivity]. Qed.

End Links.

(** C5 (counterexample): a [ [[ ] followed by another [ [[ ] before the next
    [ ]] ] yields nothing: the text between the first [ [[ ] and the next
    [ ]] ] ([a [[b]) is not among the names. *)
Lemma extractExistingLinks_nested_counterexample :
  extractExistingLinks "[[a [[b]]" = ["b"]
  /\ ~ In "a [[b" (extractExistingLinks "[[a [[b]]").
Proof. split; [reflexivity|]. vm_compute. intros [H|[]]. discriminate. Qed.

(** C5 (amended): [extractExistingLinks] takes the occurrences of [ [[ ]
    from left to right, without overlap.  (1) A [ [[ ] followed by a
    [ ]] ] with neither [ [[ ] nor [ ]] ] in between yields, in place, the
    text between them cut at the first [|] and trimmed; (2) a [ [[ ] with no
    [ ]] ] anywhere after it yields nothing and is no error; (3) a [ [[ ]
    followed by another [ [[ ] before any [ ]] ] yields nothing. *)
Theorem extractExistingLinks_pairs :
  (forall pre body post,
     last_char_is "[" pre = false -> Str.index2 "[" "[" body = None ->
     Str.index2 "]" "]" body = None -> last_char_is "]" body = false ->
     extractExistingLinks (pre ++ "[[" ++ body ++ "]]" ++ post)
     = (extractExistingLinks pre ++ [Str.trim (hd "" (Str.split1 "|" body))]
        ++ extractExistingLinks post)%list)
  /\ (forall pre rest,
     last_char_is "[" pre = false -> Str.index2 "]" "]" rest = None ->
     extractExistingLinks (pre ++ "[[" ++ rest) = extractExistingLinks pre)
  /\ (forall pre mid z,
     last_char_is "[" pre = false -> Str.index2 "[" "[" mid = None ->
     Str.index2 "]" "]" mid = None -> last_char_is "[" mid = false ->
     extractExistingLinks (pre ++ "[[" ++ mid ++ "[[" ++ z)
     = (extractExistingLinks pre ++ extractExistingLinks ("[[" ++ z))%list)
  /\ (forall s, Str.index2 "[" "[" s = None -> extractExistingLinks s = []).
Proof.
  unfold extractExistingLinks. split; [|split; [|split]].
  - intros pre body post Hp Hbo Hbc Hbl.
    rewrite Split.split2_sep by exact Hp.
    rewrite Links.tl_app_nonempty by apply Split.split2_nonempty.
    rewrite <- StrFacts.app_assoc.
    rewrite Split.split2_glue
      by (apply Split.index2_open_close, Hbo || apply Split.last_char_is_app2).
    rewrite flat_map_app. f_equal.
    destruct (Str.split2 "[" "[" post) as [|p ps] eqn:E;
      [exfalso; exact (Split.split2_nonempty _ _ _ E)|].
    cbn [prepend_head tl flat_map]. rewrite StrFacts.app_assoc.
    rewrite Links.link_of_section_close by assumption. reflexivity.
  - intros pre rest Hp Hr.
    rewrite Split.split2_sep by exact Hp.
    rewrite Links.tl_app_nonempty by apply Split.split2_nonempty.
    rewrite flat_map_app, Links.links_no_close by exact Hr. apply app_nil_r.
  - intros pre mid z Hp Hmo Hmc Hml.
    rewrite Split.split2_sep by exact Hp.
    rewrite Links.tl_app_nonempty by apply Split.split2_nonempty.
    rewrite Split.split2_sep by exact Hml.
    rewrite (Split.split2_no_sep mid) by exact Hmo.
    rewrite flat_map_app. f_equal. cbn [flat_map app].
    unfold link_of_section at 1. rewrite Hmc. reflexivity.
  - intros s Hs. rewrite Split.split2_no_sep by exact Hs. reflexivity.
Qed.

(** ** Block-list tags *)

Module BlockFacts.
Import StrFacts.




End BlockFacts.



(** ** Inline tag lists *)

Module Inline.
Import StrFacts TakeDrop.

Lemma take_app_ge (j : nat) (x y : string) :
  (String.length x <= j)%nat -> Str.take j (x ++ y) = x ++ Str.take (j - String.length x) y.
Proof.
  revert j; induction x as [|c x IH]; intros j H.
  - rewrite Nat.sub_0_r. reflexivity.
  - destruct j as [|j]; cbn in H; [lia|].
    rewrite !app_cons. cbn [Str.take String.length]. rewrite IH by lia. reflexivity.
Qed.

Lemma first_pos_skip_none {A} (f : string -> option A) (x y : string) :
  (forall i, (i < String.length x)%nat -> f (Str.drop i (x ++ y)) = None) ->
  Tags.first_pos f (x ++ y) = Tags.first_pos f y.
Proof.
  induction x as [|c x IH]; intros H; [reflexivity|].
  rewrite app_cons. cbn [Tags.first_pos].
  assert (H0 := H 0 ltac:(cbn; lia)). cbn [Str.drop] in H0. rewrite app_cons in H0.
  rewrite H0. apply IH.
  intros i Hi. specialize (H (S i) ltac:(cbn; lia)). rewrite app_cons in H. exact H.
Qed.

Lemma tags_colon_list (w v : string) :
  Tags.lazy_until_bracket w = Some v ->
  Tags.tags_colon Tags.array_value ("tags: [" ++ w) = Some v.
Proof.
  intros H. unfold Tags.tags_colon. cbv -[Tags.lazy_until_bracket]. rewrite H. reflexivity.
Qed.

Lemma first_pos_hit {A} (f : string -> option A) (s : string) (x : A) :
  f s = Some x -> Tags.first_pos f s = Some x.
Proof. destruct s; cbn; intros ->; reflexivity. Qed.

Lemma lazy_until_bracket_app (x y : string) :
  str_forall (fun c => negb (Ascii.eqb c "]") && negb (Str.is_lt c)) x = true ->
  Tags.lazy_until_bracket (x ++ "]" ++ y) = Some x.
Proof.
  induction x as [|c x IH]; intros H; [reflexivity|].
  cbn [str_forall] in H. apply andb_prop in H as [Hc Hx].
  apply andb_prop in Hc as [Hb Hlt].
  apply negb_true_iff in Hb, Hlt.
  rewrite app_cons. cbn [Tags.lazy_until_bracket]. rewrite Hb, Hlt, IH by exact Hx.
  reflexivity.
Qed.

Lemma split1_nosep (sep : ascii) (x : string) :
  str_forall (fun c => negb (Ascii.eqb c sep)) x = true -> Str.split1 sep x = [x].
Proof.
  induction x as [|c x IH]; intros H; [reflexivity|].
  cbn [str_forall] in H. apply andb_prop in H as [Hc Hx]. apply negb_true_iff in Hc.
  cbn [Str.split1]. rewrite Hc, IH by exact Hx. reflexivity.
Qed.

Lemma split1_sep (sep : ascii) (x y : string) :
  str_forall (fun c => negb (Ascii.eqb c sep)) x = true ->
  Str.split1 sep (x ++ String sep y) = x :: Str.split1 sep y.
Proof.
  induction x as [|c x IH]; intros H.
  - rewrite app_nil_l. cbn [Str.split1]. rewrite Ascii.eqb_refl. reflexivity.
  - cbn [str_forall] in H. apply andb_prop in H as [Hc Hx]. apply negb_true_iff in Hc.
    rewrite app_cons. cbn [Str.split1]. rewrite Hc, IH by exact Hx. reflexivity.
Qed.

Lemma str_forall_app (p : ascii -> bool) (x y : string) :
  str_forall p (x ++ y) = str_forall p x && str_forall p y.
Proof.
  induction x as [|c x IH]; [reflexivity|].
  rewrite app_cons. cbn [str_forall]. rewrite IH, andb_assoc. reflexivity.
Qed.

Lemma str_forall_weaken (p q : ascii -> bool) (x : string) :
  (forall c, p c = true -> q c = true) -> str_forall p x = true -> str_forall q x = true.
Proof.
  intros Hpq. induction x as [|c x IH]; [reflexivity|]. cbn [str_forall].
  intros H. apply andb_prop in H as [Hc Hx]. rewrite (Hpq c Hc), (IH Hx). reflexivity.
Qed.

Lemma trim_space (b : string) : Str.trim (String " " b) = Str.trim b.
Proof. reflexivity. Qed.

Lemma frontmatter_open (body : string) :
  Tags.frontmatter ("---" ++ Str.nl ++ body)
  = option_map (fun j => Str.take j body) (Str.index_of (Str.nl ++ "---") body).
Proof.
  unfold Tags.frontmatter. rewrite <- app_assoc.
  unfold Str.starts_with. rewrite prefix_app.
  change (Str.drop 4 (("---" ++ Str.nl) ++ body))
    with (Str.drop (String.length ("---" ++ Str.nl)) (("---" ++ Str.nl) ++ body)).
  rewrite drop_app_length. reflexivity.
Qed.

End Inline.

(** C6 (code bug). The inline-list pattern [tags\s*:\s*\[(.*?)\]] is not
    anchored at a line start, unlike the block-list header [^tags\s*:]: a
    key such as [subtags: [c]] earlier in the front matter is its first
    match, so the later line [tags: [a, b]] gives neither [a] nor [b]. *)
Lemma extractTags_subtags_divergence :
  Tags.extractTags ("---" ++ NL ++ "subtags: [c]" ++ NL ++ "tags: [a, b]" ++ NL ++ "---")
  = ["c"]
  /\ ~ In "a" (Tags.extractTags ("---" ++ NL ++ "subtags: [c]" ++ NL ++ "tags: [a, b]"
                                  ++ NL ++ "---")).
Proof. split; vm_compute; [reflexivity|]. intros [H|[]]. discriminate H. Qed.

(** X15. A note that starts with [---] and a line feed, whose front matter
    (the text up to the first [\n---]) holds [tags: [a, b]] with no match of
    the inline-list pattern starting before it, gives a tag list with [a]
    then [b] among the front-matter tags, then every inline [#tag] of the
    whole text, with no deduplication; [a] and [b] are non-empty, trimmed,
    and free of [,], [ ] ] and line terminators. *)
Theorem extractTags_inline_list (pre a b rest : string) (j : nat) :
  (forall i, (i < String.length pre)%nat ->
     Tags.tags_colon Tags.array_value
       (Str.drop i (Str.take j (pre ++ "tags: [" ++ a ++ ", " ++ b ++ "]" ++ rest))) = None) ->
  plain_tag a = true -> plain_tag b = true ->
  Str.index_of (Str.nl ++ "---") (pre ++ "tags: [" ++ a ++ ", " ++ b ++ "]" ++ rest) = Some j ->
  (String.length (pre ++ "tags: [" ++ a ++ ", " ++ b ++ "]") <= j)%nat ->
  exists s1 s2 : list string,
    Tags.extractTags ("---" ++ Str.nl ++ pre ++ "tags: [" ++ a ++ ", " ++ b ++ "]" ++ rest)
    = (s1 ++ [a; b] ++ s2
       ++ Tags.bodyTags ("---" ++ Str.nl ++ pre ++ "tags: [" ++ a ++ ", " ++ b ++ "]" ++ rest))%list.
Proof.
  intros Hpre Ha Hb Hj Hlen.
  unfold plain_tag in Ha, Hb.
  apply andb_prop in Ha as [Ha Hsa]. apply andb_prop in Ha as [Hna Hta].
  apply andb_prop in Hb as [Hb Hsb]. apply andb_prop in Hb as [Hnb Htb].
  apply negb_true_iff in Hna, Hnb. apply String.eqb_eq in Hta, Htb.
  change (str_forall (fun c => negb (Ascii.eqb c ",") && negb (Ascii.eqb c "]")
          && negb (Str.is_lt c)) a = true) with (str_forall tag_safe a = true) in Hsa.
  change (str_forall (fun c => negb (Ascii.eqb c ",") && negb (Ascii.eqb c "]")
          && negb (Str.is_lt c)) b = true) with (str_forall tag_safe b = true) in Hsb.
  set (X := pre ++ "tags: [" ++ a ++ ", " ++ b ++ "]").
  assert (Hbody : pre ++ "tags: [" ++ a ++ ", " ++ b ++ "]" ++ rest = X ++ rest).
  { unfold X. rewrite !StrFacts.app_assoc. reflexivity. }
  rewrite Hbody in Hj, Hpre |- *.
  set (T := "---" ++ Str.nl ++ X ++ rest).
  unfold Tags.extractTags. unfold T at 1. rewrite Inline.frontmatter_open, Hj.
  cbn [option_map]. rewrite (Inline.take_app_ge j X rest Hlen).
  rewrite (Inline.take_app_ge j X rest Hlen) in Hpre.
  set (r' := Str.take (j - String.length X) rest) in *.
  assert (Hfm : X ++ r' = pre ++ "tags: [" ++ (a ++ ", " ++ b ++ "]" ++ r')).
  { unfold X. rewrite !StrFacts.app_assoc. reflexivity. }
  rewrite Hfm in Hpre.
  assert (Hin : Tags.inlineArrayMatch (X ++ r') = Some (a ++ ", " ++ b)).
  { rewrite Hfm. unfold Tags.inlineArrayMatch. rewrite Inline.first_pos_skip_none.
    - apply Inline.first_pos_hit, Inline.tags_colon_list.
      replace (a ++ ", " ++ b ++ "]" ++ r') with ((a ++ ", " ++ b) ++ "]" ++ r')
        by (rewrite !StrFacts.app_assoc; reflexivity).
      apply Inline.lazy_until_bracket_app.
      assert (Hw : forall c, tag_safe c = true ->
                   negb (Ascii.eqb c "]") && negb (Str.is_lt c) = true).
      { intros c Hc. unfold tag_safe in Hc.
        apply andb_prop in Hc as [Hc ->]. apply andb_prop in Hc as [_ ->]. reflexivity. }
      rewrite !Inline.str_forall_app, (Inline.str_forall_weaken _ _ a Hw Hsa),
        (Inline.str_forall_weaken _ _ b Hw Hsb).
      reflexivity.
    - exact Hpre. }
  assert (Hsplit : List.filter (fun t => negb (String.eqb t ""))
                     (List.map Str.trim (Str.split1 "," (a ++ ", " ++ b))) = [a; b]).
  { assert (Hc : forall c, tag_safe c = true -> negb (Ascii.eqb c ",") = true).
    { intros c Hc. unfold tag_safe in Hc.
      apply andb_prop in Hc as [Hc _]. apply andb_prop in Hc as [-> _]. reflexivity. }
    rewrite (StrFacts.app_cons "," " " b), Inline.split1_sep by exact (Inline.str_forall_weaken _ _ a Hc Hsa).
    rewrite (StrFacts.app_cons " " "" b), StrFacts.app_nil_l, Inline.split1_nosep.
    - cbn [List.map]. rewrite Inline.trim_space, Hta, Htb.
      cbn [List.filter]. rewrite Hna, Hnb. reflexivity.
    - cbn [str_forall]. exact (Inline.str_forall_weaken _ _ b Hc Hsb). }
    destruct (X ++ r') as [|c t] eqn:E.
  { exfalso. apply (f_equal String.length) in E. rewrite TakeDrop.length_app in E.
    unfold X in E. rewrite !TakeDrop.length_app in E. cbn in E. lia. }
  unfold Tags.frontmatter_tags. rewrite Hin.
  destruct a as [|ca a']; [discriminate Hna|].
  destruct (String ca a' ++ ", " ++ b) as [|x y] eqn:Ev;
    [rewrite StrFacts.app_cons in Ev; discriminate Ev|].
  exists (match Tags.singleTagMatch (String c t) with Some v => [Str.trim v] | None => [] end),
    (Tags.multiline_tags false (Str.split1 "010"%char (String c t))).
  rewrite Hsplit, <- !List.app_assoc. reflexivity.
Qed.

Lemma extractTags_inline_list_witness :
  exists s1 s2 : list string,
    Tags.extractTags ("---" ++ Str.nl ++ ("title: tags" ++ Str.nl) ++ "tags: [" ++ "x" ++ ", " ++ "y" ++ "]"
                      ++ (Str.nl ++ "---" ++ Str.nl ++ "#z"))
    = (s1 ++ ["x"; "y"] ++ s2
       ++ Tags.bodyTags ("---" ++ Str.nl ++ ("title: tags" ++ Str.nl) ++ "tags: [" ++ "x" ++ ", " ++ "y" ++ "]"
                         ++ (Str.nl ++ "---" ++ Str.nl ++ "#z")))%list.
Proof.
  apply (extractTags_inline_list ("title: tags" ++ Str.nl) "x" "y" (Str.nl ++ "---" ++ Str.nl ++ "#z") 24);
    [ intros i Hi; vm_compute in Hi;
      do 12 (destruct i as [|i]; [vm_compute; reflexivity|]); lia
    | reflexivity | reflexivity | vm_compute; reflexivity
    | apply Nat.leb_le; vm_compute; reflexivity].
Defined.

(** ** Runs *)

Module Run.
Import Batch.

Lemma fold_preserve {A B} (P : A -> Prop) (step : A -> B -> A) (l : list B) (s : A) :
  (forall s' x, In x l -> P s' -> P (step s' x)) -> P s -> P (fold_left step l s).
Proof.
  revert s; induction l as [|x l IH]; intros s Hs Hp; [exact Hp|].
  cbn [fold_left]. apply IH.
  - intros s' y Hy. apply Hs. right. exact Hy.
  - apply Hs; [left; reflexivity|exact Hp].
Qed.

Lemma chunks_preserve (P : State -> Prop) env cfg (fuel : nat) (fs : list TFile) (st : State) :
  (0 < batchSize cfg)%nat ->
  (forall s f, In f fs -> P s -> P (processFile env cfg s f)) ->
  (length fs < fuel)%nat -> P st ->
  exists st', chunks env cfg fuel fs st = Some st' /\ P st'.
Proof.
  revert fs st; induction fuel as [|fuel IH]; intros fs st Hb Hs Hl Hp; [lia|].
  destruct fs as [|x xs]; [exists st; split; [reflexivity|exact Hp]|].
  cbn [chunks]. apply IH.
  - exact Hb.
  - intros s f Hf. apply Hs.
    rewrite <- (firstn_skipn (batchSize cfg) (x :: xs)). apply in_or_app. right. exact Hf.
  - rewrite length_skipn. cbn [length] in *. lia.
  - unfold processBatch. apply fold_preserve; [|exact Hp].
    intros s f Hf. apply Hs.
    rewrite <- (firstn_skipn (batchSize cfg) (x :: xs)). apply in_or_app. left. exact Hf.
Qed.

Lemma runAutoIndex_preserve (P : State -> Prop) env cfg (files : list TFile) (st : State) :
  (0 < batchSize cfg)%nat ->
  (forall s f, In f files -> P s -> P (processFile env cfg s f)) ->
  P (Build_State (vault st) (fileCache st) ∅ 0 []) ->
  exists st', runAutoIndex env cfg files st = Some st' /\ P st'.
Proof.
  intros Hb Hs Hp. unfold runAutoIndex. apply chunks_preserve; auto.
Qed.

Lemma existsb_in (x : string) (l : list string) :
  In x l -> existsb (String.eqb x) l = true.
Proof.
  intros H. apply existsb_exists. exists x. split; [exact H|apply String.eqb_refl].
Qed.

Lemma read_vault env (s s' : State) (p : string) :
  vault s = vault s' -> read env s p = read env s' p.
Proof. intros H. unfold read. rewrite H. reflexivity. Qed.

Lemma processMapping_rerun env cfg (s0 s : State) (f : TFile) (m : Mapping) :
  rerun_inv env s0 s ->
  (forall c, mocPath m <> "" ->
     vault s0 !! ensureMdExtension (mocPath m) = Some c ->
     read_fails env (ensureMdExtension (mocPath m)) = false ->
     In (basename f) (extractExistingLinks c)) ->
  rerun_inv env s0 (processMapping env cfg f s m).
Proof.
  intros Hinv Hl. pose proof Hinv as (Hv & Hn & Hc & Hf1 & Hf2).
  unfold processMapping.
  destruct (String.eqb (mocPath m) "") eqn:Em; [exact Hinv|].
  apply String.eqb_neq in Em.
  set (p := ensureMdExtension (mocPath m)) in *.
  destruct (vault s !! p) as [c|] eqn:Ev; [|exact Hinv].
  assert (Hv0 : vault s0 !! p = Some c) by (rewrite <- Hv; exact Ev).
  destruct (mocLinksCache s !! p) as [e|] eqn:Ec.
  - destruct (Hc p e Ec) as (He & Hi & Hr).
    rewrite Hv0 in He. injection He as He.
    cbv zeta. rewrite Hi, <- He, (existsb_in _ _ (Hl c Em Hv0 Hr)). exact Hinv.
  - unfold read at 1. destruct (read_fails env p) eqn:Hr; [exact Hinv|].
    rewrite Ev. cbv zeta. cbn [items content].
    rewrite (existsb_in _ _ (Hl c Em Hv0 eq_refl)).
    unfold set_mocLinksCache. split; [exact Hv|]. split; [exact Hn|].
    split; [|split; [exact Hf1|exact Hf2]].
    intros q e' Hq. cbn [mocLinksCache] in Hq.
    destruct (decide (q = p)) as [->|Hne].
    + rewrite lookup_insert_eq in Hq. injection Hq as <-. cbn [items content].
      auto.
    + rewrite lookup_insert_ne in Hq by congruence. exact (Hc q e' Hq).
Qed.

Lemma processFile_unfold env cfg (s : State) (f : TFile) :
  processFile env cfg s f =
  if negb (String.eqb (extension f) "md") then s else
  match fileCache s !! path f with
  | Some e => fold_left (tag_step env cfg f) (items e) s
  | None =>
      match read env s (path f) with
      | Some c =>
          fold_left (tag_step env cfg f) (Tags.extractTags c)
            (set_fileCache (<[path f := Build_Entry c (Tags.extractTags c)]> (fileCache s)) s)
      | None => s
      end
  end.
Proof.
  unfold processFile. destruct (negb _); [reflexivity|].
  destruct (fileCache s !! path f); [reflexivity|].
  destruct (read env s (path f)); reflexivity.
Qed.

Lemma fold_tags_rerun env cfg (s0 s1 : State) (f : TFile) (ts : list string) :
  rerun_inv env s0 s1 -> extension f = "md" -> tags_of env s0 f = Some ts ->
  already_linked env cfg s0 f ->
  rerun_inv env s0 (fold_left (tag_step env cfg f) ts s1).
Proof.
  intros Hinv Hext Hts Hl. apply fold_preserve; [|exact Hinv].
  intros s t Ht Hs. unfold tag_step.
  destruct (matchingMappings t (tagMappings cfg)) as [|m0 ms0] eqn:Em; [exact Hs|].
  rewrite <- Em. unfold processTagMappings. apply fold_preserve; [|exact Hs].
  intros s' m Hm Hs'. apply processMapping_rerun; [exact Hs'|].
  intros c Hne Hc Hr. exact (Hl ts t m c Hext Hts Ht Hm Hne Hc Hr).
Qed.

Lemma processFile_rerun env cfg (s0 s : State) (f : TFile) :
  rerun_inv env s0 s -> already_linked env cfg s0 f ->
  rerun_inv env s0 (processFile env cfg s f).
Proof.
  intros Hinv Hl. pose proof Hinv as (Hv & Hn & Hc & Hf1 & Hf2).
  rewrite processFile_unfold.
  destruct (negb (String.eqb (extension f) "md")) eqn:Ex; [exact Hinv|].
  apply negb_false_iff, String.eqb_eq in Ex.
  destruct (fileCache s !! path f) as [e|] eqn:Ef.
  - apply fold_tags_rerun; auto. unfold tags_of.
    destruct (Hf2 _ _ Ef) as [-> | (-> & Hr & Hi)]; [reflexivity|].
    rewrite Hr. cbn [option_map]. rewrite Hi. reflexivity.
  - assert (Hf0 : fileCache s0 !! path f = None).
    { destruct (fileCache s0 !! path f) as [e|] eqn:E0; [|reflexivity].
      rewrite (Hf1 _ _ E0) in Ef. discriminate. }
    rewrite (read_vault env s s0 (path f) Hv).
    destruct (read env s0 (path f)) as [c|] eqn:Er; [|exact Hinv].
    apply fold_tags_rerun; auto.
    + unfold set_fileCache. split; [exact Hv|]. split; [exact Hn|]. split; [exact Hc|].
      cbn [fileCache]. split.
      * intros k e He. destruct (decide (k = path f)) as [->|Hne].
        -- rewrite Hf0 in He. discriminate.
        -- rewrite lookup_insert_ne by congruence. exact (Hf1 k e He).
      * intros k e He. destruct (decide (k = path f)) as [->|Hne].
        -- rewrite lookup_insert_eq in He. injection He as <-. right. auto.
        -- rewrite lookup_insert_ne in He by congruence. exact (Hf2 k e He).
    + unfold tags_of. rewrite Hf0, Er. reflexivity.
Qed.


Lemma NoDup_snoc {A} (l : list A) (x : A) : NoDup l -> ~ In x l -> NoDup (l ++ [x])%list.
Proof.
  intros Hl Hx. apply NoDup_app. split; [exact Hl|]. split; [|apply NoDup_singleton].
  intros y Hy Hy'. apply list_elem_of_singleton in Hy' as ->.
  apply Hx, list_elem_of_In, Hy.
Qed.

Lemma existsb_false_notin (x : string) (l : list string) :
  existsb (String.eqb x) l = false -> ~ In x l.
Proof. intros H Hin. rewrite existsb_in in H by exact Hin. discriminate. Qed.

Lemma added_insert (s : State) (p b u : string) (e : Entry) v fc n :
  added_inv s -> mocLinksCache s !! p = Some e ->
  existsb (String.eqb b) (items e) = false ->
  added_inv (Build_State v fc (<[p := Build_Entry u (items e ++ [b])%list]> (mocLinksCache s))
                         n (added s ++ [(p, b)])%list).
Proof.
  intros (Hnd & Hin) He Hb. apply existsb_false_notin in Hb.
  split; cbn [added mocLinksCache].
  - apply NoDup_snoc; [exact Hnd|]. intros Hpb.
    destruct (Hin p b Hpb) as (e' & He' & Hb'). rewrite He in He'. injection He' as <-.
    exact (Hb Hb').
  - intros q b' Hq. destruct (decide (q = p)) as [->|Hne].
    + rewrite lookup_insert_eq. eexists; split; [reflexivity|]. cbn [items].
      apply in_app_or in Hq as [Hq|[Hq|[]]].
      * destruct (Hin p b' Hq) as (e' & He' & Hb'). rewrite He in He'. injection He' as <-.
        apply in_or_app. left. exact Hb'.
      * injection Hq as <-. apply in_or_app. right. left. reflexivity.
    + rewrite lookup_insert_ne by congruence.
      apply in_app_or in Hq as [Hq|[Hq|[]]].
      * exact (Hin q b' Hq).
      * injection Hq as -> _. congruence.
Qed.

Lemma processMapping_added env cfg (s : State) (f : TFile) (m : Mapping) :
  added_inv s -> added_inv (processMapping env cfg f s m).
Proof.
  intros Hs. unfold processMapping.
  destruct (String.eqb (mocPath m) "") eqn:Em; [exact Hs|].
  set (p := ensureMdExtension (mocPath m)).
  destruct (vault s !! p) as [c|] eqn:Ev; [|exact Hs].
  destruct (mocLinksCache s !! p) as [e|] eqn:Ec.
  - cbv zeta. destruct (existsb (String.eqb (basename f)) (items e)) eqn:Eb; [exact Hs|].
    destruct (write_fails env p); [exact Hs|].
    exact (added_insert s p (basename f) _ e _ _ _ Hs Ec Eb).
  - destruct (read env s p) as [c'|] eqn:Er; [|exact Hs]. cbv zeta.
    set (e := Build_Entry c' (extractExistingLinks c')).
    set (s1 := set_mocLinksCache (<[p := e]> (mocLinksCache s)) s).
    assert (Hs1 : added_inv s1).
    { destruct Hs as (Hnd & Hin). split; [exact Hnd|].
      intros q b Hq. destruct (Hin q b Hq) as (e' & He' & Hb).
      exists e'. split; [|exact Hb]. cbn [s1 set_mocLinksCache mocLinksCache].
      rewrite lookup_insert_ne; [exact He'|]. intros ->. rewrite Ec in He'. discriminate. }
    assert (Ec1 : mocLinksCache s1 !! p = Some e)
      by (cbn [s1 set_mocLinksCache mocLinksCache]; apply lookup_insert_eq).
    destruct (existsb (String.eqb (basename f)) (items e)) eqn:Eb; [exact Hs1|].
    destruct (write_fails env p); [exact Hs1|].
    exact (added_insert s1 p (basename f) _ e _ _ _ Hs1 Ec1 Eb).
Qed.

Lemma processFile_preserve (P : State -> Prop) env cfg (s : State) (f : TFile) :
  (forall s' m, P s' -> P (processMapping env cfg f s' m)) ->
  (forall s' fc, P s' -> P (set_fileCache fc s')) ->
  P s -> P (processFile env cfg s f).
Proof.
  intros Hm Hc Hs.
  assert (Hf : forall s' ts, P s' -> P (fold_left (tag_step env cfg f) ts s')).
  { intros s' ts Hs'. apply fold_preserve; [|exact Hs'].
    intros s'' t _ Hs''. unfold tag_step. destruct (matchingMappings _ _); [exact Hs''|].
    unfold processTagMappings.
    apply fold_preserve; [|exact Hs'']. intros; auto. }
  rewrite processFile_unfold.
  destruct (negb _); [exact Hs|].
  destruct (fileCache s !! path f); [auto|].
  destruct (read env s (path f)); auto.
Qed.




End Run.

Module RunFacts.
Import Batch Run.

Lemma chunks_inv (P : State -> Prop) env cfg (files : list TFile) :
  (forall s f, In f files -> P s -> P (processFile env cfg s f)) ->
  forall fuel fs s s', (forall f, In f fs -> In f files) -> P s ->
  chunks env cfg fuel fs s = Some s' -> P s'.
Proof.
  intros Hs fuel. induction fuel as [|fuel IH]; intros fs s s' Hfs Hp E;
    destruct fs as [|x xs]; cbn [chunks] in E; try discriminate;
    try (injection E as <-; exact Hp).
  refine (IH _ _ _ _ _ E).
  - intros f Hf. apply Hfs.
    rewrite <- (firstn_skipn (batchSize cfg) (x :: xs)). apply in_or_app. right. exact Hf.
  - unfold processBatch. apply fold_preserve; [|exact Hp].
    intros s1 f Hf. apply Hs, Hfs.
    rewrite <- (firstn_skipn (batchSize cfg) (x :: xs)). apply in_or_app. left. exact Hf.
Qed.

Lemma run_inv_gen (P : State -> Prop) env cfg (files : list TFile) (st st' : State) :
  (forall s f, In f files -> P s -> P (processFile env cfg s f)) ->
  P (Build_State (vault st) (fileCache st) ∅ 0 []) ->
  runAutoIndex env cfg files st = Some st' -> P st'.
Proof.
  intros Hs Hp E. unfold runAutoIndex in E.
  exact (chunks_inv P env cfg files Hs _ files _ _ (fun f H => H) Hp E).
Qed.

Lemma processFile_preserve_in (P : State -> Prop) env cfg (s : State) (f : TFile) :
  (forall s' m, extension f = "md" -> In m (tagMappings cfg) -> P s' ->
     P (processMapping env cfg f s' m)) ->
  (forall s' c, extension f = "md" -> read env s' (path f) = Some c -> P s' ->
     P (set_fileCache (<[path f := Build_Entry c (Tags.extractTags c)]> (fileCache s')) s')) ->
  P s -> P (processFile env cfg s f).
Proof.
  intros Hm Hc Hs. rewrite processFile_unfold.
  destruct (negb (String.eqb (extension f) "md")) eqn:Ex; [exact Hs|].
  apply negb_false_iff, String.eqb_eq in Ex.
  assert (Hf : forall s' ts, P s' -> P (fold_left (tag_step env cfg f) ts s')).
  { intros s' ts Hs'. apply fold_preserve; [|exact Hs'].
    intros s'' t _ Hs''. unfold tag_step.
    destruct (matchingMappings t (tagMappings cfg)) as [|m0 ms0] eqn:Em; [exact Hs''|].
    rewrite <- Em. unfold processTagMappings.
    apply fold_preserve; [|exact Hs'']. intros s3 m Hm3 Hs3. apply Hm; auto.
    unfold matchingMappings in Hm3. apply filter_In in Hm3. tauto. }
  destruct (fileCache s !! path f); [auto|].
  destruct (read env s (path f)) eqn:Er; auto.
Qed.

(** The outcome of [processMapping]: unchanged, the hub's cache entry
    loaded, or (after the entry is available in [s1]) the write. *)
Lemma processMapping_cases env cfg (f : TFile) (s : State) (m : Mapping) :
  let p := ensureMdExtension (mocPath m) in
  processMapping env cfg f s m = s
  \/ (exists c, mocPath m <> "" /\ mocLinksCache s !! p = None /\ vault s !! p = Some c
        /\ read env s p = Some c
        /\ processMapping env cfg f s m
           = set_mocLinksCache (<[p := Build_Entry c (extractExistingLinks c)]> (mocLinksCache s)) s)
  \/ (exists s1 e, mocPath m <> "" /\ vault s1 = vault s /\ fileCache s1 = fileCache s
        /\ totalNotesAdded s1 = totalNotesAdded s /\ added s1 = added s
        /\ mocLinksCache s1 !! p = Some e
        /\ (forall q, q <> p -> mocLinksCache s1 !! q = mocLinksCache s !! q)
        /\ (mocLinksCache s !! p = Some e \/
            (mocLinksCache s !! p = None /\ read env s p = Some (content e)))
        /\ processMapping env cfg f s m
           = Build_State (<[p := addLinkToMOC (content e) (link_line cfg (basename f))
                                              (heading_of cfg)]> (vault s1))
                         (delete p (fileCache s1))
                         (<[p := Build_Entry (addLinkToMOC (content e) (link_line cfg (basename f))
                                                (heading_of cfg))
                                   (items e ++ [basename f])%list]> (mocLinksCache s1))
                         (S (totalNotesAdded s1))
                         (added s1 ++ [(p, basename f)])%list).
Proof.
  cbv zeta. unfold processMapping.
  destruct (String.eqb (mocPath m) "") eqn:Em; [left; reflexivity|].
  apply String.eqb_neq in Em.
  set (p := ensureMdExtension (mocPath m)).
  destruct (vault s !! p) as [c|] eqn:Ev; [|left; reflexivity].
  destruct (mocLinksCache s !! p) as [e|] eqn:Ec.
  - cbv zeta. destruct (existsb (String.eqb (basename f)) (items e)); [left; reflexivity|].
    destruct (write_fails env p); [left; reflexivity|].
    right; right. exists s, e. repeat split; auto.
  - destruct (read env s p) as [c'|] eqn:Er; [|left; reflexivity]. cbv zeta.
    assert (Hc' : c' = c).
    { unfold read in Er. destruct (read_fails env p); [discriminate|]. congruence. }
    subst c'.
    destruct (existsb (String.eqb (basename f)) (items (Build_Entry c (extractExistingLinks c)))).
    + right; left. exists c. repeat split; auto.
    + destruct (write_fails env p).
      * right; left. exists c. repeat split; auto.
      * right; right.
        exists (set_mocLinksCache (<[p := Build_Entry c (extractExistingLinks c)]> (mocLinksCache s)) s),
               (Build_Entry c (extractExistingLinks c)).
        cbn [set_mocLinksCache vault fileCache totalNotesAdded added mocLinksCache content].
        repeat split; auto.
        -- apply lookup_insert_eq.
        -- intros q Hq. apply lookup_insert_ne. congruence.
Qed.

Lemma replay_snoc cfg (q p b : string) (adds : list (string * string)) (c : string) :
  replay cfg q (adds ++ [(p, b)])%list c
  = if String.eqb p q then addLinkToMOC (replay cfg q adds c) (link_line cfg b) (heading_of cfg)
    else replay cfg q adds c.
Proof. unfold replay. rewrite fold_left_app. reflexivity. Qed.


Lemma processMapping_write_inv env cfg files (s0 s : State) (f : TFile) (m : Mapping) :
  In f files -> extension f = "md" -> In m (tagMappings cfg) ->
  write_inv cfg files s0 s -> write_inv cfg files s0 (processMapping env cfg f s m).
Proof.
  intros Hf Hx Hm Hs. pose proof Hs as (Hv & Hc & Hn & Ha).
  destruct (processMapping_cases env cfg f s m)
    as [-> | [(c & Hne & Ec & Ev & Er & ->) | (s1 & e & Hne & Ev1 & Ef1 & En1 & Ea1 & Ee & Hoth & Hsrc & ->)]].
  - exact Hs.
  - split; [exact Hv|]. split; [|split; [exact Hn|exact Ha]].
    cbn [set_mocLinksCache mocLinksCache vault].
    intros q e He. destruct (decide (q = ensureMdExtension (mocPath m))) as [->|Hq].
    + rewrite lookup_insert_eq in He. injection He as <-. exact Ev.
    + rewrite lookup_insert_ne in He by congruence. exact (Hc q e He).
  - set (p := ensureMdExtension (mocPath m)) in *.
    set (u := addLinkToMOC (content e) (link_line cfg (basename f)) (heading_of cfg)).
    assert (Hvp : vault s !! p = Some (content e)).
    { destruct Hsrc as [He|(_ & Er)]; [exact (Hc p e He)|].
      unfold read in Er. destruct (read_fails env p); [discriminate|exact Er]. }
    split; [|split; [|split]]; cbn [vault mocLinksCache totalNotesAdded added].
    + intros q. rewrite Ev1, Ea1. destruct (decide (q = p)) as [->|Hq].
      * rewrite lookup_insert_eq. rewrite Hv in Hvp.
        destruct (vault s0 !! p) as [c0|]; [|discriminate]. cbn [option_map] in *.
        injection Hvp as Hvp. rewrite replay_snoc, String.eqb_refl, Hvp. reflexivity.
      * rewrite lookup_insert_ne by congruence. rewrite Hv.
        destruct (vault s0 !! q); [|reflexivity]. cbn [option_map].
        rewrite replay_snoc. destruct (String.eqb p q) eqn:E; [|reflexivity].
        apply String.eqb_eq in E. congruence.
    + intros q e' He'. rewrite Ev1. destruct (decide (q = p)) as [->|Hq].
      * rewrite lookup_insert_eq in He'. injection He' as <-. rewrite lookup_insert_eq. reflexivity.
      * rewrite lookup_insert_ne in He' by congruence. rewrite lookup_insert_ne by congruence.
        rewrite Hoth in He' by exact Hq. exact (Hc q e' He').
    + rewrite En1, Ea1, Hn, length_app. cbn [length]. lia.
    + intros q b Hq. rewrite Ea1 in Hq. apply in_app_or in Hq as [Hq|[Hq|[]]].
      * exact (Ha q b Hq).
      * injection Hq as <- <-. exists m, f. repeat split; auto.
Qed.


Lemma runAutoIndex_write_inv env cfg (files : list TFile) (st st' : State) :
  runAutoIndex env cfg files st = Some st' -> write_inv cfg files st st'.
Proof.
  apply run_inv_gen.
  - intros s f Hf Hs. apply processFile_preserve_in; [| |exact Hs].
    + intros s' m Hx Hm Hs'. exact (processMapping_write_inv env cfg files st s' f m Hf Hx Hm Hs').
    + intros s' c _ _ Hs'. exact Hs'.
  - split; [|split; [|split]]; cbn [vault mocLinksCache added totalNotesAdded].
    + intros q. destruct (vault st !! q); reflexivity.
    + intros q e He. rewrite lookup_empty in He. discriminate.
    + reflexivity.
    + intros q b [].
Qed.

Lemma replay_changed cfg (q : string) (adds : list (string * string)) (c : string) :
  replay cfg q adds c <> c -> exists b, In (q, b) adds.
Proof.
  revert c; induction adds as [|[p b] adds IH]; intros c H; [contradiction|].
  unfold replay in H. cbn [fold_left fst snd] in H.
  destruct (String.eqb p q) eqn:E.
  - apply String.eqb_eq in E. subst p. exists b. left. reflexivity.
  - destruct (IH c H) as (b' & Hb). exists b'. right. exact Hb.
Qed.

(** The batch loop is one pass over the files when the batch size is
    positive. *)
Lemma chunks_all env cfg (fuel : nat) (fs : list TFile) (s : State) :
  (0 < batchSize cfg)%nat -> (length fs < fuel)%nat ->
  chunks env cfg fuel fs s = Some (processBatch env cfg fs s).
Proof.
  revert fs s; induction fuel as [|fuel IH]; intros fs s Hb Hl; [lia|].
  destruct fs as [|x xs]; [reflexivity|].
  cbn [chunks]. rewrite IH by (exact Hb || (rewrite length_skipn; cbn [length] in *; lia)).
  unfold processBatch. rewrite <- fold_left_app, firstn_skipn. reflexivity.
Qed.

Lemma processFile_with_batch env cfg (n : nat) (s : State) (f : TFile) :
  processFile env (with_batch cfg n) s f = processFile env cfg s f.
Proof. destruct cfg. reflexivity. Qed.

Lemma processBatch_with_batch env cfg (n : nat) (fs : list TFile) (s : State) :
  processBatch env (with_batch cfg n) fs s = processBatch env cfg fs s.
Proof.
  unfold processBatch. revert s; induction fs as [|f fs IH]; intros s; [reflexivity|].
  cbn [fold_left]. rewrite processFile_with_batch. apply IH.
Qed.

Lemma chunks_stuck env cfg (fuel : nat) (fs : list TFile) (s : State) :
  batchSize cfg = 0%nat -> fs <> [] -> chunks env cfg fuel fs s = None.
Proof.
  intros Hb Hne. revert s; induction fuel as [|fuel IH]; intros s;
    destruct fs as [|x xs]; try congruence; [reflexivity|].
  cbn [chunks]. rewrite Hb. cbn [firstn skipn]. apply IH.
Qed.

Lemma tag_step_eq env cfg (f : TFile) (s : State) (t : string) :
  tag_step env cfg f s t = processTagMappings env cfg f (matchingMappings t (tagMappings cfg)) s.
Proof. unfold tag_step. destruct (matchingMappings t (tagMappings cfg)); reflexivity. Qed.

Lemma processMapping_unset env cfg (f : TFile) (s : State) (m : Mapping) :
  mocPath m = "" -> processMapping env cfg f s m = s.
Proof. intros H. unfold processMapping. rewrite H. reflexivity. Qed.

Lemma fold_mappings_filter env cfg (f : TFile) (ms : list Mapping) (s : State) :
  fold_left (processMapping env cfg f) (List.filter (fun m => negb (String.eqb (mocPath m) "")) ms) s
  = fold_left (processMapping env cfg f) ms s.
Proof.
  revert s; induction ms as [|m ms IH]; intros s; [reflexivity|].
  cbn [List.filter fold_left]. destruct (String.eqb (mocPath m) "") eqn:E; cbn [negb fold_left].
  - apply String.eqb_eq in E. rewrite processMapping_unset by exact E. apply IH.
  - apply IH.
Qed.

Lemma filter_comm {A} (p q : A -> bool) (l : list A) :
  List.filter p (List.filter q l) = List.filter q (List.filter p l).
Proof.
  induction l as [|x l IH]; [reflexivity|]. cbn [List.filter].
  destruct (q x) eqn:Eq, (p x) eqn:Ep; cbn [List.filter]; rewrite ?Eq, ?Ep, IH; reflexivity.
Qed.

Lemma processFile_drop_unset env cfg (s : State) (f : TFile) :
  processFile env (drop_unset cfg) s f = processFile env cfg s f.
Proof.
  assert (Ht : forall s' t, tag_step env (drop_unset cfg) f s' t = tag_step env cfg f s' t).
  { intros s' t. rewrite !tag_step_eq. unfold processTagMappings, matchingMappings.
    cbn [drop_unset tagMappings]. rewrite filter_comm.
    change (processMapping env (drop_unset cfg) f) with (processMapping env cfg f).
    apply fold_mappings_filter. }
  assert (Hf : forall ts s', fold_left (tag_step env (drop_unset cfg) f) ts s'
                             = fold_left (tag_step env cfg f) ts s').
  { induction ts as [|t ts IH]; intros s'; [reflexivity|]. cbn [fold_left]. rewrite Ht. apply IH. }
  rewrite !processFile_unfold. destruct (negb _); [reflexivity|].
  destruct (fileCache s !! path f); [apply Hf|].
  destruct (read env s (path f)); [apply Hf|reflexivity].
Qed.

Lemma chunks_drop_unset env cfg (fuel : nat) (fs : list TFile) (s : State) :
  chunks env (drop_unset cfg) fuel fs s = chunks env cfg fuel fs s.
Proof.
  revert fs s; induction fuel as [|fuel IH]; intros fs s; destruct fs as [|x xs]; try reflexivity.
  cbn [chunks]. change (batchSize (drop_unset cfg)) with (batchSize cfg). rewrite IH.
  f_equal. unfold processBatch. generalize (firstn (batchSize cfg) (x :: xs)) as l.
  intros l. revert s; induction l as [|g l IHl]; intros s; [reflexivity|].
  cbn [fold_left]. rewrite processFile_drop_unset. apply IHl.
Qed.

Lemma processMapping_fresh env cfg (f : TFile) (s : State) (m : Mapping) :
  file_cache_fresh s -> file_cache_fresh (processMapping env cfg f s m).
Proof.
  intros Hs.
  destruct (processMapping_cases env cfg f s m)
    as [-> | [(c & Hne & Ec & Ev & Er & ->) | (s1 & e & Hne & Ev1 & Ef1 & En1 & Ea1 & Ee & Hoth & Hsrc & ->)]].
  - exact Hs.
  - exact Hs.
  - intros k e' He'. cbn [fileCache vault] in *. rewrite Ef1 in He'.
    destruct (decide (k = ensureMdExtension (mocPath m))) as [->|Hk].
    + rewrite lookup_delete_eq in He'. discriminate.
    + rewrite lookup_delete_ne in He' by congruence. rewrite lookup_insert_ne by congruence.
      rewrite Ev1. exact (Hs k e' He').
Qed.

Lemma runAutoIndex_fresh env cfg (files : list TFile) (st st' : State) :
  file_cache_fresh st -> runAutoIndex env cfg files st = Some st' -> file_cache_fresh st'.
Proof.
  intros H0. apply run_inv_gen; [|exact H0].
  intros s f _ Hs. apply processFile_preserve_in; [| |exact Hs].
  - intros s' m _ _ Hs'. apply processMapping_fresh. exact Hs'.
  - intros s' c _ Er Hs' k e He. cbn [set_fileCache fileCache vault] in *.
    destruct (decide (k = path f)) as [->|Hk].
    + rewrite lookup_insert_eq in He. injection He as <-. cbn [content items]. split; [|reflexivity].
      unfold read in Er. destruct (read_fails env (path f)); [discriminate|exact Er].
    + rewrite lookup_insert_ne in He by congruence. exact (Hs' k e He).
Qed.

Lemma file_cache_fresh_st0 : file_cache_fresh st0.
Proof. intros k e He. unfold st0 in He. cbn [fileCache] in He. rewrite lookup_empty in He. discriminate. Qed.

Lemma file_cache_fresh_st_cached : file_cache_fresh st_cached.
Proof.
  intros k e He. unfold st_cached in He. cbn [fileCache] in He.
  destruct (decide (k = "A.md")) as [->|Hk].
  - rewrite lookup_insert_eq in He. injection He as <-. cbn [content items vault].
    split; [|reflexivity]. unfold st_cached, vault0, noteA. cbn [vault].
    rewrite lookup_insert_eq. reflexivity.
  - rewrite lookup_insert_ne, lookup_empty in He by congruence. discriminate.
Qed.

Lemma st_cached_has_A : fileCache st_cached !! "A.md" <> None.
Proof. unfold st_cached. cbn [fileCache]. rewrite lookup_insert_eq. discriminate. Qed.

End RunFacts.

Module Tree.

Lemma AFile_ind2 (P : AFile -> Prop) (Q : list AFile -> Prop) :
  (forall f, P (ALeaf f)) -> (forall ch, Q ch -> P (AFolder ch)) ->
  Q [] -> (forall a r, P a -> Q r -> Q (a :: r)) -> forall a, P a.
Proof.
  intros Hl Hf Hn Hc. fix IH 1. intros [ch|f].
  - apply Hf. revert ch. fix go 1. intros [|c r]; [exact Hn|]. apply Hc; [apply IH|apply go].
  - apply Hl.
Qed.

Lemma collect_child_folder (ch : list AFile) : collect_child (AFolder ch) = collectFiles ch.
Proof.
  induction ch as [|c r IH]; [reflexivity|].
  change (collect_child c ++ collect_child (AFolder r)
          = collect_child c ++ flat_map collect_child r)%list.
  rewrite IH. reflexivity.
Qed.


Lemma md_under_nil (f : Batch.TFile) : ~ md_under [] f.
Proof. intros H. inversion H; contradiction. Qed.

Lemma md_under_cons (a : AFile) (r : list AFile) (f : Batch.TFile) :
  md_under (a :: r) f <-> md_child a f \/ md_under r f.
Proof.
  split.
  - intros H. inversion H as [ch f' Hin Hx | ch ch' f' Hin Hu]; subst.
    + destruct Hin as [Ea|Hin]; [subst a; left; cbn; auto|right; apply md_here; auto].
    + destruct Hin as [Ea|Hin]; [subst a; left; exact Hu|right; eapply md_deeper; eauto].
  - intros [H|H].
    + destruct a as [ch|g]; cbn in H.
      * eapply md_deeper; [left; reflexivity|exact H].
      * destruct H as [<- Hx]. apply md_here; [left; reflexivity|exact Hx].
    + inversion H as [ch f' Hin Hx | ch ch' f' Hin Hu]; subst.
      * apply md_here; [right; exact Hin|exact Hx].
      * eapply md_deeper; [right; exact Hin|exact Hu].
Qed.

Lemma collect_child_spec (a : AFile) :
  forall f, In f (collect_child a) <-> md_child a f.
Proof.
  apply (AFile_ind2 (fun a => forall f, In f (collect_child a) <-> md_child a f)
                    (fun l => forall f, In f (collectFiles l) <-> md_under l f)).
  - intros g f. cbn [collect_child md_child].
    destruct (String.eqb (Batch.extension g) "md") eqn:E.
    + apply String.eqb_eq in E. cbn [In]. split; [intros [<-|[]]; auto|intros [<- _]; left; reflexivity].
    + apply String.eqb_neq in E. cbn [In]. split; [intros []|intros [<- Hx]; contradiction].
  - intros ch Hch f. rewrite collect_child_folder. exact (Hch f).
  - intros f. split; [intros []|intros H; exact (md_under_nil f H)].
  - intros c r Hc Hr f. unfold collectFiles. cbn [flat_map].
    rewrite in_app_iff, md_under_cons, Hc. fold (collectFiles r). rewrite Hr. reflexivity.
Qed.

Lemma collectFiles_spec (ch : list AFile) (f : Batch.TFile) :
  In f (collectFiles ch) <-> md_under ch f.
Proof. rewrite <- collect_child_folder. exact (collect_child_spec (AFolder ch) f). Qed.

End Tree.

Module Display.
Import StrFacts TakeDrop.

Lemma display_md (q x : string) :
  In x md_spellings -> displayMocPath (q ++ "." ++ x) = q.
Proof.
  intros Hx. unfold displayMocPath.
  assert (Hl : String.length x = 2%nat) by (destruct Hx as [<-|[<-|[<-|[<-|[]]]]]; reflexivity).
  destruct (String.eqb_spec (q ++ "." ++ x) "") as [E|_].
  - exfalso. apply (f_equal String.length) in E. rewrite !length_app in E. cbn in E. lia.
  - assert (Str.ends_with ".md" (Str.to_lower (q ++ "." ++ x)) = true) as ->
      by (apply ends_md_iff; eauto).
    rewrite !length_app. cbn [String.length]. rewrite Hl.
    replace (String.length q + (1 + 2) - 3)%nat with (String.length q) by lia.
    apply take_app_length.
Qed.

Lemma display_other (p : string) :
  (forall q x, In x md_spellings -> p <> q ++ "." ++ x) -> displayMocPath p = p.
Proof.
  intros H. unfold displayMocPath.
  destruct (String.eqb_spec p "") as [->|_]; [reflexivity|].
  destruct (Str.ends_with ".md" (Str.to_lower p)) eqn:E; [|reflexivity].
  apply ends_md_iff in E as (q & x & Hx & Ep). exfalso. exact (H q x Hx Ep).
Qed.

End Display.

Module Placeholder.
Import StrFacts TakeDrop.

Lemma prefix_app_long (p a b : string) :
  (String.length p <= String.length a)%nat -> String.prefix p (a ++ b) = String.prefix p a.
Proof.
  revert a; induction p as [|c p IH]; intros [|d a] H; cbn in H; try lia.
  - destruct b; reflexivity.
  - destruct a; reflexivity.
  - rewrite app_cons, !prefix_cons. destruct (ascii_dec c d); [apply IH; lia|reflexivity].
Qed.

Lemma index_of_app (p a b : string) (i : nat) :
  Str.index_of p a = Some i -> (i + String.length p <= String.length a)%nat ->
  Str.index_of p (a ++ b) = Some i.
Proof.
  revert i; induction a as [|c a IH]; intros i H Hl.
  - cbn in Hl. assert (String.length p = 0%nat) by lia.
    destruct p; [|discriminate]. cbn in H. rewrite <- H. destruct b; reflexivity.
  - change (String c a ++ b) with (String c (a ++ b)). cbn [Str.index_of] in *.
    replace (Str.starts_with p (String c (a ++ b))) with (Str.starts_with p (String c a))
      by (unfold Str.starts_with; rewrite <- (app_cons c a b), prefix_app_long; [reflexivity|lia]).
    destruct (Str.starts_with p (String c a)); [exact H|].
    destruct (Str.index_of p a) as [j|] eqn:Ej; [|discriminate].
    cbn [option_map] in H. injection H as <-.
    cbn [String.length] in Hl. rewrite (IH j eq_refl) by lia. reflexivity.
Qed.

(** The first placeholder of [pre ++ P ++ post] is the one after [pre]. *)
Lemma replace_first_at (P rep pre post : string) :
  Str.index_of P (pre ++ P) = Some (String.length pre) ->
  Batch.replace_first P rep (pre ++ P ++ post)
  = pre ++ Str.subst P pre post rep ++ post.
Proof.
  intros H. unfold Batch.replace_first.
  rewrite <- app_assoc, (index_of_app _ _ _ _ H) by (rewrite length_app; lia).
  rewrite app_assoc, take_app_length, drop_add, drop_app_length, drop_app_length.
  reflexivity.
Qed.

End Placeholder.

Module Escape.

Lemma backslash_special (c : ascii) : regex_special c = false -> Ascii.eqb c "\" = false.
Proof.
  intros H. destruct (Ascii.eqb_spec c "\") as [->|]; [discriminate|reflexivity].
Qed.

Lemma literal_escape (h : string) : literal_pattern (escapeRegExp h) = Some h.
Proof.
  induction h as [|c r IH]; [reflexivity|]. cbn [escapeRegExp].
  destruct (regex_special c) eqn:E.
  - cbn [literal_pattern]. rewrite E, IH. reflexivity.
  - cbn [literal_pattern]. rewrite (backslash_special c E), E, IH. reflexivity.
Qed.

Lemma escape_one (d : ascii) (p h : string) :
  Ascii.eqb d "\" = false -> regex_special d = false ->
  (forall h', literal_pattern p = Some h' -> escapeRegExp h' = p) ->
  literal_pattern (String d p) = Some h -> escapeRegExp h = String d p.
Proof.
  intros Hd Hs IH H. cbn [literal_pattern] in H. rewrite Hd, Hs in H.
  destruct (literal_pattern p) as [h'|] eqn:E; [|discriminate].
  injection H as <-. cbn [escapeRegExp]. rewrite Hs, (IH h' eq_refl). reflexivity.
Qed.

Lemma escape_literal_gen (p : string) :
  (forall h, literal_pattern p = Some h -> escapeRegExp h = p)
  /\ (forall d h, literal_pattern (String d p) = Some h -> escapeRegExp h = String d p).
Proof.
  induction p as [|c p [IH1 IH2]].
  - split; [intros h H; injection H as <-; reflexivity|].
    intros d h H. destruct (Ascii.eqb d "\") eqn:Hd.
    + cbn [literal_pattern] in H. rewrite Hd in H. discriminate.
    + destruct (regex_special d) eqn:Hs.
      * cbn [literal_pattern] in H. rewrite Hd, Hs in H. discriminate.
      * apply (escape_one d "" h Hd Hs); [|exact H]. intros h' E. injection E as <-. reflexivity.
  - split; [exact (IH2 c)|]. intros d h H. destruct (Ascii.eqb d "\") eqn:Hd.
    + apply Ascii.eqb_eq in Hd. subst d. cbn [literal_pattern] in H.
      destruct (regex_special c) eqn:Hc; [|discriminate].
      destruct (literal_pattern p) as [h'|] eqn:E; [|discriminate].
      injection H as <-. cbn [escapeRegExp]. rewrite Hc, (IH1 h' eq_refl). reflexivity.
    + destruct (regex_special d) eqn:Hs.
      * cbn [literal_pattern] in H. rewrite Hd, Hs in H. discriminate.
      * exact (escape_one d (String c p) h Hd Hs (IH2 c) H).
Qed.

End Escape.

Module Pieces.
Import StrFacts TakeDrop Inline.


Lemma split1_shape (sep : ascii) (s : string) :
  exists x0 rest, Str.split1 sep s = x0 :: rest /\ nosep sep x0 = true
    /\ ((rest = [] /\ s = x0) \/ exists r, s = x0 ++ String sep r /\ Str.split1 sep r = rest).
Proof.
  induction s as [|c r IH].
  - exists "", []. auto.
  - destruct IH as (y0 & rest & E & Hy & Hr). cbn [Str.split1]. rewrite E.
    destruct (Ascii.eqb_spec c sep) as [->|Hc].
    + exists "", (y0 :: rest). split; [reflexivity|]. split; [reflexivity|].
      right. exists r. split; [reflexivity|exact E].
    + exists (String c y0), rest. split; [reflexivity|]. split.
      * unfold nosep in *. cbn [str_forall]. rewrite Hy.
        destruct (Ascii.eqb_spec c sep); [contradiction|reflexivity].
      * destruct Hr as [(-> & ->)|(r2 & -> & E2)]; [left; auto|right].
        exists r2. split; [rewrite app_cons; reflexivity|exact E2].
Qed.

Lemma split1_tl (sep : ascii) (n : nat) : forall s seg, (String.length s <= n)%nat ->
  In seg (tl (Str.split1 sep s)) ->
  exists pre post, s = pre ++ String sep (seg ++ post) /\ nosep sep seg = true
                   /\ (post = "" \/ exists r, post = String sep r).
Proof.
  induction n as [|n IH]; intros s seg Hl Hin.
  - destruct s; [|cbn in Hl; lia]. destruct Hin.
  - destruct (split1_shape sep s) as (x0 & rest & E & Hx & [(-> & _)|(r & Es & Er)]);
      rewrite E in Hin; cbn [tl] in Hin; [destruct Hin|].
    destruct (split1_shape sep r) as (y0 & rest2 & E2 & Hy & Hr2).
    rewrite <- Er, E2 in Hin. destruct Hin as [<-|Hin].
    + exists x0. destruct Hr2 as [(_ & ->)|(r2 & -> & _)].
      * exists "". split; [rewrite Es, app_nil_r; reflexivity|]. auto.
      * exists (String sep r2). split; [exact Es|]. split; [exact Hy|]. right. eauto.
    + assert (Hlr : (String.length r <= n)%nat).
      { rewrite Es, length_app in Hl. cbn [String.length] in Hl. lia. }
      assert (Hin' : In seg (tl (Str.split1 sep r))) by (rewrite E2; exact Hin).
      destruct (IH r seg Hlr Hin') as (pre & post & Er2 & Hs & Hp).
      exists (x0 ++ String sep pre), post. split; [|auto].
      rewrite Es, Er2, app_assoc, app_cons. reflexivity.
Qed.

Lemma split1_length (sep : ascii) (s : string) :
  length (Str.split1 sep s) = S (occurrences (String sep "") s).
Proof.
  induction s as [|c r IH]; [reflexivity|]. cbn [Str.split1 occurrences].
  unfold Str.starts_with. rewrite prefix_cons.
  destruct (split1_shape sep r) as (y0 & rest & E & _). rewrite E in IH |- *.
  destruct (Ascii.eqb_spec c sep) as [->|Hc].
  - destruct (ascii_dec sep sep); [|contradiction].
    assert (String.prefix "" r = true) as -> by (destruct r; reflexivity).
    cbn [length] in *. lia.
  - destruct (ascii_dec sep c); [congruence|]. cbn [length] in *. lia.
Qed.

End Pieces.

Module BodyTags.
Import StrFacts TakeDrop Inline Pieces.

Lemma class_run_spec (p : ascii -> bool) (s : string) :
  str_forall p (Str.take (Tags.class_run p s) s) = true
  /\ (Str.drop (Tags.class_run p s) s = ""
      \/ exists d r, Str.drop (Tags.class_run p s) s = String d r /\ p d = false).
Proof.
  induction s as [|c r IH]; [auto|]. cbn [Tags.class_run].
  destruct (p c) eqn:Ep.
  - cbn [Str.take Str.drop str_forall]. rewrite Ep. exact IH.
  - cbn [Str.take Str.drop]. split; [reflexivity|]. right. eauto.
Qed.

Lemma body_tag_spec (part t : string) :
  Tags.body_tag part = Some t ->
  t <> "" /\ str_forall Tags.tag_char t = true
  /\ exists rest, part = t ++ rest
                  /\ (rest = "" \/ exists d r, rest = String d r /\ Tags.tag_char d = false).
Proof.
  unfold Tags.body_tag. destruct (class_run_spec Tags.tag_char part) as [Hf Hr].
  destruct (Tags.class_run Tags.tag_char part) as [|l] eqn:El; [discriminate|].
  intros H. injection H as <-. split; [|split; [exact Hf|]].
  - destruct part; [cbn in El; discriminate|]. cbn [Str.take]. discriminate.
  - exists (Str.drop (S l) part). split; [symmetry; exact (take_drop (S l) part)|exact Hr].
Qed.

Lemma omap_length {A B} (f : A -> option B) (l : list A) : (length (omap f l) <= length l)%nat.
Proof.
  induction l as [|x l IH]; [cbn; lia|]. cbn [omap list_omap length].
  destruct (f x); cbn [length]; lia.
Qed.

Lemma in_omap {A B} (f : A -> option B) (l : list A) (y : B) :
  In y (omap f l) -> exists x, In x l /\ f x = Some y.
Proof.
  induction l as [|x l IH]; [intros []|]. cbn [omap list_omap].
  destruct (f x) eqn:E.
  - intros [<-|H]; [exists x; split; [left|]; auto|].
    destruct (IH H) as (x' & Hx & Hf). exists x'. split; [right|]; auto.
  - intros H. destruct (IH H) as (x' & Hx & Hf). exists x'. split; [right|]; auto.
Qed.

End BodyTags.

Module TrimFacts.
Import StrFacts TakeDrop Inline.


Lemma ltrim_suffix (s : string) : exists k, s = k ++ Str.ltrim s.
Proof.
  induction s as [|c r (k & Hk)]; [exists ""; reflexivity|]. cbn [Str.ltrim].
  destruct (Str.is_ws c); [exists (String c k); rewrite app_cons, <- Hk; reflexivity|].
  exists "". reflexivity.
Qed.

Lemma ltrim_head (s : string) : trimmed_head (Str.ltrim s).
Proof.
  induction s as [|c r IH]; [left; reflexivity|]. cbn [Str.ltrim].
  destruct (Str.is_ws c) eqn:E; [exact IH|]. right. eauto.
Qed.

Lemma ltrim_fixed (s : string) : trimmed_head s -> Str.ltrim s = s.
Proof. intros [->|(c & r & -> & E)]; [reflexivity|]. cbn [Str.ltrim]. rewrite E. reflexivity. Qed.

Lemma trim_idem (s : string) : Str.trim (Str.trim s) = Str.trim s.
Proof.
  unfold Str.trim. set (u := Str.ltrim s). set (w := Str.ltrim (Str.rev_str u)).
  assert (Hw : trimmed_head w) by apply ltrim_head.
  assert (Hrw : trimmed_head (Str.rev_str w)).
  { destruct (ltrim_suffix (Str.rev_str u)) as (k & Hk). fold w in Hk.
    assert (Hu : u = Str.rev_str w ++ Str.rev_str k)
      by (rewrite <- (rev_str_involutive u), Hk, rev_str_app; reflexivity).
    destruct (Str.rev_str w) as [|c r] eqn:E; [left; reflexivity|right].
    destruct (ltrim_head s) as [Hu0|(c' & r' & Hu0 & Hc')]; fold u in Hu0.
    - rewrite Hu0 in Hu. rewrite app_cons in Hu. discriminate.
    - rewrite Hu0, app_cons in Hu. injection Hu as <- _. eauto. }
  rewrite (ltrim_fixed _ Hrw), rev_str_involutive, (ltrim_fixed _ Hw). reflexivity.
Qed.

Lemma str_forall_ltrim (p : ascii -> bool) (s : string) :
  str_forall p s = true -> str_forall p (Str.ltrim s) = true.
Proof.
  destruct (ltrim_suffix s) as (k & Hk). rewrite Hk at 1. rewrite str_forall_app.
  intros H. apply andb_prop in H as [_ H]. exact H.
Qed.

Lemma str_forall_rev (p : ascii -> bool) (s : string) :
  str_forall p (Str.rev_str s) = str_forall p s.
Proof.
  induction s as [|c r IH]; [reflexivity|]. cbn [Str.rev_str str_forall].
  rewrite str_forall_app, IH. cbn [str_forall]. rewrite andb_true_r, andb_comm. reflexivity.
Qed.

Lemma str_forall_trim (p : ascii -> bool) (s : string) :
  str_forall p s = true -> str_forall p (Str.trim s) = true.
Proof.
  intros H. unfold Str.trim. rewrite str_forall_rev. apply str_forall_ltrim.
  rewrite str_forall_rev. apply str_forall_ltrim. exact H.
Qed.

End TrimFacts.

Import Batch Run.

(** C1. A run over a vault where every hub selected for a note already
    lists the note (among the links extracted from the hub's text) ends,
    when the batch size is positive, with the vault unchanged and a count
    of 0.  In the scenario of a note [A.md] tagged [maths] mapped to the hub
    [MOC.md] holding [## Links] and a newline, the first run writes
    [## Links\n- [[A]]\n] with count 1, and a second run from the state it
    leaves changes nothing and counts 0. *)
Theorem runAutoIndex_rerun :
  (forall env cfg (files : list TFile) (st : State),
     (0 < batchSize cfg)%nat ->
     (forall f, In f files -> already_linked env cfg st f) ->
     exists st', runAutoIndex env cfg files st = Some st'
                 /\ vault st' = vault st /\ totalNotesAdded st' = 0)
  /\ (exists st1 st2,
        runAutoIndex env0 cfg0 files0 st0 = Some st1
        /\ vault st1 !! "MOC.md" = Some ("## Links" ++ Str.nl ++ "- [[A]]" ++ Str.nl)
        /\ totalNotesAdded st1 = 1
        /\ runAutoIndex env0 cfg0 files0 st1 = Some st2
        /\ vault st2 = vault st1 /\ totalNotesAdded st2 = 0).
Proof.
  assert (G : forall env cfg (files : list TFile) (st : State),
     (0 < batchSize cfg)%nat ->
     (forall f, In f files -> already_linked env cfg st f) ->
     exists st', runAutoIndex env cfg files st = Some st'
                 /\ vault st' = vault st /\ totalNotesAdded st' = 0).
  { intros env cfg files st Hb Hl.
    set (s0 := Build_State (vault st) (fileCache st) ∅ 0 []).
    destruct (runAutoIndex_preserve (rerun_inv env s0) env cfg files st Hb)
      as (st' & E & Hv & Hn & _).
    - intros s f Hf Hs. apply processFile_rerun; [exact Hs|]. exact (Hl f Hf).
    - split; [reflexivity|]. split; [reflexivity|]. split.
      + intros p e He. cbn [mocLinksCache] in He. rewrite lookup_empty in He. discriminate.
      + split; [auto|]. intros k e He. left. exact He.
    - exists st'. auto. }
  split; [exact G|].
  destruct (runAutoIndex env0 cfg0 files0 st0) as [s1|] eqn:E1;
    [|vm_compute in E1; discriminate E1].
  assert (E1' := E1). vm_compute in E1'. injection E1' as E1'.
  destruct (G env0 cfg0 files0 s1 ltac:(vm_compute; lia)) as (s2 & E2 & Hv2 & Hn2).
  - intros f Hf ts t m c Hext Hts Ht Hm Hne Hc Hr. subst s1.
    destruct Hf as [<-|[<-|[]]]; vm_compute in Hts; injection Hts as <-.
    + destruct Ht as [<-|[]]. vm_compute in Hm. destruct Hm as [<-|[]].
      vm_compute in Hc. injection Hc as <-. vm_compute. auto.
    + destruct Ht.
  - exists s1, s2. split; [reflexivity|].
    split; [subst s1; vm_compute; reflexivity|].
    split; [subst s1; reflexivity|]. auto.
Qed.

(** C2. In one run, the (hub path, basename) pairs of the successful
    insertions are pairwise distinct: a hub never gets the same note twice,
    since the cached links are checked before an insertion and the basename
    is added to them after it. *)
Theorem runAutoIndex_added_nodup env cfg (files : list TFile) (st st' : State) :
  runAutoIndex env cfg files st = Some st' -> NoDup (added st').
Proof.
  intros E. unfold runAutoIndex in E.
  assert (Hall : forall fuel fs s, added_inv s ->
            forall s', chunks env cfg fuel fs s = Some s' -> added_inv s').
  { induction fuel as [|fuel IH]; intros fs s Hs s' Ec; destruct fs as [|x xs];
      cbn [chunks] in Ec; try discriminate; try (injection Ec as <-; exact Hs).
    refine (IH _ _ _ _ Ec). unfold processBatch. apply fold_preserve; [|exact Hs].
    intros s1 f _ Hs1. apply processFile_preserve; [| |exact Hs1].
    - intros s2 m Hs2. apply processMapping_added. exact Hs2.
    - intros s2 fc Hs2. exact Hs2. }
  refine (proj1 (Hall _ _ _ _ _ E)). split; [apply NoDup_nil_2|]. intros p b [].
Qed.

Lemma runAutoIndex_added_nodup_witness :
  exists s, runAutoIndex env0 cfg2 files0 st0 = Some s
            /\ added s = [("MOC.md", "A")] /\ NoDup (added s).
Proof.
  destruct (runAutoIndex env0 cfg2 files0 st0) as [s|] eqn:E;
    [|vm_compute in E; discriminate E].
  exists s. split; [reflexivity|]. split.
  - assert (E' := E). vm_compute in E'. injection E' as <-. reflexivity.
  - exact (runAutoIndex_added_nodup env0 cfg2 files0 st0 s E).
Defined.

(** C9. A note that cannot be read is skipped and the batch goes on with
    the next note; a hub that cannot be read is skipped and the loop goes on
    with the next mapping; when the write of a hub fails, the state is the
    one before the write (only the lazy load of the hub's cache entry, if it
    happened, remains): no count, no change to the vault, the hub's cache
    entry not refreshed.  With a positive batch size a run always ends. *)
Theorem batch_errors_skipped :
  (forall env cfg (st : State) (f : TFile) (fs : list TFile),
     extension f = "md" -> fileCache st !! path f = None -> read env st (path f) = None ->
     processFile env cfg st f = st
     /\ processBatch env cfg (f :: fs) st = processBatch env cfg fs st)
  /\ (forall env cfg (f : TFile) (st : State) (m : Mapping) (ms : list Mapping),
        mocLinksCache st !! ensureMdExtension (mocPath m) = None ->
        read env st (ensureMdExtension (mocPath m)) = None ->
        processMapping env cfg f st m = st
        /\ processTagMappings env cfg f (m :: ms) st = processTagMappings env cfg f ms st)
  /\ (forall env cfg (f : TFile) (st : State) (m : Mapping),
        write_fails env (ensureMdExtension (mocPath m)) = true ->
        processMapping env cfg f st m = st
        \/ (mocLinksCache st !! ensureMdExtension (mocPath m) = None
            /\ exists c, read env st (ensureMdExtension (mocPath m)) = Some c
               /\ processMapping env cfg f st m
                  = set_mocLinksCache
                      (<[ensureMdExtension (mocPath m) :=
                           Build_Entry c (extractExistingLinks c)]> (mocLinksCache st)) st))
  /\ (forall env cfg (files : list TFile) (st : State),
        (0 < batchSize cfg)%nat -> exists st', runAutoIndex env cfg files st = Some st').
Proof.
  assert (Hb : forall env cfg (f : TFile) (st : State) (m : Mapping),
        mocLinksCache st !! ensureMdExtension (mocPath m) = None ->
        read env st (ensureMdExtension (mocPath m)) = None ->
        processMapping env cfg f st m = st).
  { intros env cfg f st m Hc Hr. unfold processMapping.
    destruct (String.eqb (mocPath m) "") eqn:Em; [reflexivity|].
    destruct (vault st !! ensureMdExtension (mocPath m)); [|reflexivity].
    rewrite Hc, Hr. reflexivity. }
  split; [|split; [|split]].
  - intros env cfg st f fs Hx Hc Hr.
    assert (Hf : processFile env cfg st f = st).
    { rewrite processFile_unfold, Hx, Hc, Hr. reflexivity. }
    split; [exact Hf|]. unfold processBatch. cbn [fold_left]. rewrite Hf. reflexivity.
  - intros env cfg f st m ms Hc Hr. split; [exact (Hb env cfg f st m Hc Hr)|].
    unfold processTagMappings. cbn [fold_left]. rewrite (Hb env cfg f st m Hc Hr).
    reflexivity.
  - intros env cfg f st m Hw. unfold processMapping.
    destruct (String.eqb (mocPath m) "") eqn:Em; [left; reflexivity|].
    destruct (vault st !! ensureMdExtension (mocPath m)); [|left; reflexivity].
    destruct (mocLinksCache st !! ensureMdExtension (mocPath m)) as [e|] eqn:Ec.
    + left. cbv zeta. destruct (existsb _ _); [reflexivity|]. rewrite Hw. reflexivity.
    + destruct (read env st (ensureMdExtension (mocPath m))) as [c|] eqn:Er;
        [|left; reflexivity].
      right. split; [reflexivity|]. exists c. split; [reflexivity|].
      cbv zeta. destruct (existsb _ _); [reflexivity|]. rewrite Hw. reflexivity.
  - intros env cfg files st Hbs.
    destruct (runAutoIndex_preserve (fun _ => True) env cfg files st Hbs)
      as (st' & E & _); auto.
    exists st'. exact E.
Qed.

(* ------------------------------------------------------------------ *)
(** ** Further properties of [main.js] *)

Import RunFacts.

(** X1. After a run that ends, the text of every vault path is its text
    before the run with the logged insertions for that path replayed in
    order, each one an [addLinkToMOC] of the current text with the link line
    of the note and the section heading; a path that did not exist still
    does not, and a path without insertions keeps its text. *)
Theorem runAutoIndex_vault_replay env cfg (files : list TFile) (st st' : State) :
  runAutoIndex env cfg files st = Some st' ->
  forall p, vault st' !! p = option_map (replay cfg p (added st')) (vault st !! p).
Proof.
  intros E. exact (proj1 (runAutoIndex_write_inv env cfg files st st' E)).
Qed.

Lemma runAutoIndex_vault_replay_witness :
  exists s, runAutoIndex env0 cfg0 files0 st0 = Some s
            /\ added s = [("MOC.md", "A")]
            /\ vault s !! "MOC.md" = option_map (replay cfg0 "MOC.md" (added s)) (vault st0 !! "MOC.md").
Proof.
  destruct (runAutoIndex env0 cfg0 files0 st0) as [s|] eqn:E;
    [|vm_compute in E; discriminate E].
  exists s. split; [reflexivity|]. split.
  - assert (E' := E). vm_compute in E'. injection E' as <-. reflexivity.
  - exact (runAutoIndex_vault_replay env0 cfg0 files0 st0 s E "MOC.md").
Defined.

(** X2. The counter [totalNotesAdded] at the end of a run equals the
    number of successful hub writes of that run. *)
Theorem runAutoIndex_count env cfg (files : list TFile) (st st' : State) :
  runAutoIndex env cfg files st = Some st' -> totalNotesAdded st' = length (added st').
Proof.
  intros E. exact (proj1 (proj2 (proj2 (runAutoIndex_write_inv env cfg files st st' E)))).
Qed.

Lemma runAutoIndex_count_witness :
  exists s, runAutoIndex env0 cfg0 files0 st0 = Some s /\ totalNotesAdded s = length (added s)
            /\ totalNotesAdded s = 1%nat.
Proof.
  destruct (runAutoIndex env0 cfg0 files0 st0) as [s|] eqn:E;
    [|vm_compute in E; discriminate E].
  exists s. split; [reflexivity|]. split.
  - exact (runAutoIndex_count env0 cfg0 files0 st0 s E).
  - assert (E' := E). vm_compute in E'. injection E' as <-. reflexivity.
Defined.

(** X3. A run neither creates nor deletes a vault file, and every file
    whose text changes is [ensureMdExtension] of the non-empty hub path of a
    configured mapping, and has a logged insertion of a listed markdown
    note. *)
Theorem runAutoIndex_footprint env cfg (files : list TFile) (st st' : State) :
  runAutoIndex env cfg files st = Some st' ->
  forall k, (vault st' !! k = None <-> vault st !! k = None)
            /\ (vault st' !! k <> vault st !! k ->
                exists m f, In m (tagMappings cfg) /\ mocPath m <> ""
                            /\ k = ensureMdExtension (mocPath m)
                            /\ In f files /\ extension f = "md"
                            /\ In (k, basename f) (added st')).
Proof.
  intros E k. destruct (runAutoIndex_write_inv env cfg files st st' E) as (Hv & _ & _ & Ha).
  rewrite Hv. split.
  - destruct (vault st !! k); cbn [option_map]; split; congruence.
  - intros Hne. destruct (vault st !! k) as [c|]; [|contradiction]. cbn [option_map] in Hne.
    destruct (replay_changed cfg k (added st') c (fun H => Hne (f_equal Some H))) as (b & Hb).
    destruct (Ha k b Hb) as (m & f & Hm & Hmp & Hk & Hf & Hx & <-).
    exists m, f. repeat split; auto.
Qed.

Lemma runAutoIndex_footprint_witness :
  exists s, runAutoIndex env0 cfg0 files0 st0 = Some s
            /\ vault s !! "MOC.md" <> vault st0 !! "MOC.md"
            /\ ((vault s !! "MOC.md" = None <-> vault st0 !! "MOC.md" = None)
                /\ (vault s !! "MOC.md" <> vault st0 !! "MOC.md" ->
                    exists m f, In m (tagMappings cfg0) /\ mocPath m <> ""
                                /\ "MOC.md" = ensureMdExtension (mocPath m)
                                /\ In f files0 /\ extension f = "md"
                                /\ In ("MOC.md", basename f) (added s))).
Proof.
  destruct (runAutoIndex env0 cfg0 files0 st0) as [s|] eqn:E;
    [|vm_compute in E; discriminate E].
  exists s. split; [reflexivity|]. split.
  - assert (E' := E). vm_compute in E'. injection E' as <-. vm_compute. discriminate.
  - exact (runAutoIndex_footprint env0 cfg0 files0 st0 s E "MOC.md").
Defined.

(** X4. With any positive batch size, a run ends and its result is one
    [processBatch] pass over all listed files in order, from the state with
    the hub cache emptied and the counter reset: the batch size has no effect
    on the outcome. *)
Theorem runAutoIndex_one_pass env cfg (n : nat) (files : list TFile) (st : State) :
  (0 < n)%nat ->
  runAutoIndex env (with_batch cfg n) files st
  = Some (processBatch env cfg files (Build_State (vault st) (fileCache st) ∅ 0 [])).
Proof.
  intros Hn. unfold runAutoIndex. rewrite chunks_all by (cbn [with_batch batchSize]; lia).
  rewrite processBatch_with_batch. reflexivity.
Qed.

Lemma runAutoIndex_one_pass_witness :
  (0 < 1)%nat /\
  runAutoIndex env0 (with_batch cfg0 1) files0 st0
  = Some (processBatch env0 cfg0 files0 (Build_State (vault st0) (fileCache st0) ∅ 0 [])).
Proof. split; [lia|]. apply (runAutoIndex_one_pass env0 cfg0 1 files0 st0). lia. Defined.

(** X5. With a batch size of 0 and at least one file to process, the batch
    loop of [runAutoIndex] never ends: it does not finish within any number
    of rounds. *)
Theorem chunks_batch_size_zero env cfg (files : list TFile) :
  batchSize cfg = 0%nat -> files <> [] ->
  forall fuel st, chunks env cfg fuel files st = None.
Proof. intros Hb Hne fuel st. exact (chunks_stuck env cfg fuel files st Hb Hne). Qed.

Lemma chunks_batch_size_zero_witness :
  batchSize (with_batch cfg0 0) = 0%nat /\ files0 <> [] /\
  chunks env0 (with_batch cfg0 0) 100 files0 st0 = None.
Proof.
  split; [reflexivity|]. split; [discriminate|].
  apply (chunks_batch_size_zero env0 (with_batch cfg0 0) files0); [reflexivity|discriminate].
Defined.

(** X6. Mappings whose hub path is empty have no effect on a run: removing
    them, or adding the empty mapping that "Add New Mapping" creates, gives
    the same result. *)
Theorem runAutoIndex_unset_mappings env cfg (files : list TFile) (st : State) :
  runAutoIndex env (drop_unset cfg) files st = runAutoIndex env cfg files st
  /\ runAutoIndex env (addMapping cfg) files st = runAutoIndex env cfg files st.
Proof.
  unfold runAutoIndex. split; [apply chunks_drop_unset|].
  rewrite <- (chunks_drop_unset env (addMapping cfg)), <- (chunks_drop_unset env cfg).
  assert (drop_unset (addMapping cfg) = drop_unset cfg) as ->; [|reflexivity].
  unfold drop_unset, addMapping. cbn [tagMappings appendFormat sectionHeading batchSize].
  rewrite List.filter_app. cbn [List.filter mocPath String.eqb negb]. rewrite List.app_nil_r.
  reflexivity.
Qed.

(** X7. If every note-cache entry holds the current text of its path and
    the tags of that text, this still holds after a run, although the run
    writes hub files. *)
Theorem runAutoIndex_file_cache_fresh env cfg (files : list TFile) (st st' : State) :
  file_cache_fresh st -> runAutoIndex env cfg files st = Some st' -> file_cache_fresh st'.
Proof. exact (runAutoIndex_fresh env cfg files st st'). Qed.

Lemma runAutoIndex_file_cache_fresh_witness :
  exists s, runAutoIndex env0 cfg0 files0 st0 = Some s /\ file_cache_fresh s.
Proof.
  destruct (runAutoIndex env0 cfg0 files0 st0) as [s|] eqn:E;
    [|vm_compute in E; discriminate E].
  exists s. split; [reflexivity|].
  exact (runAutoIndex_file_cache_fresh env0 cfg0 files0 st0 s file_cache_fresh_st0 E).
Defined.

(** X8. For a non-empty path, the ['modify'] handler removes the path's
    note-cache entry (if any), and a change or a deletion of the file
    followed by its event keeps every note-cache entry equal to the current
    text of its path with that text's tags. *)
Theorem events_file_cache_fresh (st : State) (p : string) :
  p <> "" -> file_cache_fresh st ->
  on_modify (fileCache st) p = delete p (fileCache st)
  /\ (forall c, file_cache_fresh (external_modify st p c))
  /\ file_cache_fresh (external_delete st p).
Proof.
  intros Hp Hs. apply String.eqb_neq in Hp. split; [|split].
  - unfold on_modify. rewrite Hp. destruct (fileCache st !! p) eqn:E; [reflexivity|].
    symmetry. apply delete_id. exact E.
  - intros c k e He. unfold external_modify, on_modify, set_fileCache, set_vault in *.
    cbn [fileCache vault] in *. rewrite Hp in He.
    destruct (decide (k = p)) as [->|Hk].
    + destruct (fileCache st !! p) eqn:Ep.
      * rewrite lookup_delete_eq in He. discriminate.
      * rewrite Ep in He. discriminate.
    + rewrite lookup_insert_ne by congruence.
      destruct (fileCache st !! p); [rewrite lookup_delete_ne in He by congruence|];
        exact (Hs k e He).
  - intros k e He. unfold external_delete, on_delete, set_fileCache, set_vault in *.
    cbn [fileCache vault] in *. rewrite Hp in He.
    destruct (decide (k = p)) as [->|Hk].
    + rewrite lookup_delete_eq in He. discriminate.
    + rewrite lookup_delete_ne in He by congruence. rewrite lookup_delete_ne by congruence.
      exact (Hs k e He).
Qed.

Lemma events_file_cache_fresh_witness :
  fileCache st_cached !! "A.md" <> None
  /\ ("A.md" <> "" /\ file_cache_fresh st_cached
      /\ (on_modify (fileCache st_cached) "A.md" = delete "A.md" (fileCache st_cached)
          /\ (forall c, file_cache_fresh (external_modify st_cached "A.md" c))
          /\ file_cache_fresh (external_delete st_cached "A.md"))).
Proof.
  split; [exact st_cached_has_A|].
  split; [discriminate|]. split; [exact file_cache_fresh_st_cached|].
  apply events_file_cache_fresh; [discriminate|exact file_cache_fresh_st_cached].
Defined.

(** X9. For a search path other than [/], [getFilesInPath] lists exactly
    the files with extension [md] at any depth below the folder found at
    that path, and nothing when the path is missing or is a file. *)
Theorem getFilesInPath_members (vt : VaultTree) (path : string) :
  path <> "/" ->
  forall f, In f (getFilesInPath vt path)
            <-> exists ch, getAbstractFileByPath vt path = Some (AFolder ch) /\ md_under ch f.
Proof.
  intros Hp f. unfold getFilesInPath.
  destruct (String.eqb_spec path "/") as [E|_]; [contradiction|].
  destruct (getAbstractFileByPath vt path) as [[ch|g]|].
  - rewrite Tree.collectFiles_spec. split; [eauto|]. intros (ch' & E & H). congruence.
  - split; [intros []|]. intros (ch' & E & _). discriminate.
  - split; [intros []|]. intros (ch' & E & _). discriminate.
Qed.

Lemma getFilesInPath_members_witness :
  let a := Batch.Build_TFile "Notes/a.md" "a" "md" in
  let b := Batch.Build_TFile "Notes/sub/b.md" "b" "md" in
  let img := Batch.Build_TFile "Notes/sub/c.png" "c" "png" in
  let vt := Build_VaultTree [] (fun p => if String.eqb p "Notes"
                                         then Some (AFolder [ALeaf a; AFolder [ALeaf b; ALeaf img]])
                                         else None) in
  getFilesInPath vt "Notes" = [a; b]
  /\ "Notes" <> "/"
  /\ (In b (getFilesInPath vt "Notes")
      <-> exists ch, getAbstractFileByPath vt "Notes" = Some (AFolder ch) /\ md_under ch b).
Proof.
  intros a b img vt. split; [reflexivity|]. split; [discriminate|].
  apply (getFilesInPath_members vt "Notes"). discriminate.
Defined.

(** X10. The settings tab shows a hub path ending in [.md] (any letter case)
    without that ending and any other path as it is; stored again, the shown
    text of [q.md], [q.MD] and the like resolves to [q.md] when [q] is
    non-empty and has no such ending itself. *)
Theorem displayMocPath_round_trip :
  (forall q x, In x md_spellings -> displayMocPath (q ++ "." ++ x) = q)
  /\ (forall p, (forall q x, In x md_spellings -> p <> q ++ "." ++ x) -> displayMocPath p = p)
  /\ (forall q x, q <> "" -> (forall q' y, In y md_spellings -> q <> q' ++ "." ++ y) ->
        In x md_spellings -> ensureMdExtension (displayMocPath (q ++ "." ++ x)) = q ++ ".md").
Proof.
  split; [exact Display.display_md|]. split; [exact Display.display_other|].
  intros q x Hq Hno Hx. rewrite (Display.display_md q x Hx). unfold ensureMdExtension.
  destruct (String.eqb_spec q "") as [E|_]; [contradiction|].
  destruct (Str.ends_with ".md" (Str.to_lower q)) eqn:E; [|reflexivity].
  apply ends_md_iff in E as (q' & y & Hy & Eq). exfalso. exact (Hno q' y Hy Eq).
Qed.

(** X11. When the append format is [pre ++ "{{fileName}}" ++ post] and the
    placeholder does not occur earlier, the link line of a basename without
    [$] is [pre ++ basename ++ post]; a basename [$&] gives the format itself
    and [$$] gives a single [$]. *)
Theorem link_line_placeholder (cfg : Batch.Settings) (pre post : string) :
  Batch.appendFormat cfg = pre ++ "{{fileName}}" ++ post ->
  Str.index_of "{{fileName}}" (pre ++ "{{fileName}}") = Some (String.length pre) ->
  (forall b, no_dollar b = true -> link_line cfg b = pre ++ b ++ post)
  /\ link_line cfg "$&" = Batch.appendFormat cfg
  /\ link_line cfg "$$" = pre ++ "$" ++ post.
Proof.
  intros Hf Hi. unfold link_line.
  assert (Hr : forall b, Batch.replace_first "{{fileName}}" b (Batch.appendFormat cfg)
                         = pre ++ Str.subst "{{fileName}}" pre post b ++ post)
    by (intros b; rewrite Hf; exact (Placeholder.replace_first_at _ _ _ _ Hi)).
  split; [|split]; [intros b Hb| |]; rewrite Hr.
  - rewrite (Heading.subst_no_dollar _ _ _ _ Hb). reflexivity.
  - rewrite Hf. reflexivity.
  - reflexivity.
Qed.

Lemma link_line_placeholder_witness :
  Batch.appendFormat cfg0 = "- [[" ++ "{{fileName}}" ++ "]]" ++ Str.nl
  /\ Str.index_of "{{fileName}}" ("- [[" ++ "{{fileName}}") = Some (String.length "- [[")
  /\ link_line cfg0 "A" = "- [[" ++ "A" ++ "]]" ++ Str.nl
  /\ link_line cfg0 "$&" = Batch.appendFormat cfg0.
Proof.
  assert (Hf : Batch.appendFormat cfg0 = "- [[" ++ "{{fileName}}" ++ "]]" ++ Str.nl) by reflexivity.
  assert (Hi : Str.index_of "{{fileName}}" ("- [[" ++ "{{fileName}}") = Some (String.length "- [["))
    by reflexivity.
  destruct (link_line_placeholder cfg0 _ _ Hf Hi) as (H1 & H2 & _).
  split; [exact Hf|]. split; [exact Hi|]. split; [|exact H2]. apply H1. reflexivity.
Defined.

(** X12. The escaping of the section heading is a round trip: the escaped
    heading reads as a regular-expression source made only of literal
    characters and escaped syntax characters that matches exactly the
    heading, and any such source is the escaping of the text it matches. *)
Theorem escapeRegExp_literal :
  (forall h, literal_pattern (escapeRegExp h) = Some h)
  /\ (forall p h, literal_pattern p = Some h -> escapeRegExp h = p).
Proof.
  split; [exact Escape.literal_escape|]. intros p. exact (proj1 (Escape.escape_literal_gen p)).
Qed.

(** X13. Every link extracted from a hub is trimmed and contains no [|];
    so a basename with leading or trailing whitespace, or with a [|], is
    never found among the extracted links. *)
Theorem extractExistingLinks_trimmed (content : string) :
  (forall l, In l (extractExistingLinks content) ->
     Str.trim l = l /\ str_forall (fun d => negb (Ascii.eqb d "|")) l = true)
  /\ (forall b, Str.trim b <> b \/ str_forall (fun d => negb (Ascii.eqb d "|")) b = false ->
        ~ In b (extractExistingLinks content)).
Proof.
  assert (H : forall l, In l (extractExistingLinks content) ->
     Str.trim l = l /\ str_forall (fun d => negb (Ascii.eqb d "|")) l = true).
  { intros l Hl. unfold extractExistingLinks in Hl. apply in_flat_map in Hl as (sec & _ & Hl).
    unfold link_of_section in Hl. destruct (Str.index2 "]" "]" sec) as [k|]; [|destruct Hl].
    destruct Hl as [<-|[]].
    destruct (Pieces.split1_shape "|" (Str.take k sec)) as (x0 & rest & E & Hx & _).
    rewrite E. cbn [hd]. split; [apply TrimFacts.trim_idem|].
    apply TrimFacts.str_forall_trim. exact Hx. }
  split; [exact H|]. intros b Hb Hin. destruct (H b Hin) as [H1 H2].
  destruct Hb as [Hb|Hb]; congruence.
Qed.

(** X14. Every body tag is a non-empty run of [A-Za-z0-9_-] that follows a
    [#] of the text and is followed by the end of the text or by another
    character; there are at most as many body tags as [#] characters. *)
Theorem bodyTags_shape (content : string) :
  (forall t, In t (Tags.bodyTags content) ->
     t <> "" /\ str_forall Tags.tag_char t = true
     /\ exists pre post, content = pre ++ "#" ++ t ++ post
                         /\ (post = "" \/ exists d r, post = String d r /\ Tags.tag_char d = false))
  /\ (length (Tags.bodyTags content) <= occurrences "#" content)%nat.
Proof.
  split.
  - intros t Ht. unfold Tags.bodyTags in Ht. apply BodyTags.in_omap in Ht as (seg & Hseg & Hb).
    destruct (Pieces.split1_tl "#" (String.length content) content seg (le_n _) Hseg)
      as (pre & post & Ec & _ & Hpost).
    destruct (BodyTags.body_tag_spec seg t Hb) as (Hne & Hf & rest & Es & Hrest).
    split; [exact Hne|]. split; [exact Hf|].
    exists pre, (rest ++ post). split.
    + rewrite Ec, Es, StrFacts.app_assoc. reflexivity.
    + destruct Hrest as [->|(d & r & -> & Hd)].
      * rewrite StrFacts.app_nil_l. destruct Hpost as [->|(r & ->)]; [left; reflexivity|].
        right. exists "#"%char, r. split; reflexivity.
      * right. exists d, (r ++ post). split; [reflexivity|exact Hd].
  - unfold Tags.bodyTags. etransitivity; [apply BodyTags.omap_length|].
    pose proof (Pieces.split1_length "#" content) as E.
    destruct (Str.split1 "#" content) as [|x l]; cbn [tl length] in *; lia.
Qed.
